(** * package-analyzer: a shallow embedding of the aggregation pipeline

    The development follows the Python sources module by module:
    - [Py]: the fragment of Python's values and built-ins the sources use
      (JSON values, truthiness, [float()], [str.lower], [str.strip],
      [str.split(sep)[0]], the substring test [in], a stable [list.sort]);
    - [Security]: [security_analyzer.py] (severity scoring and the report);
    - [Issues]: [issue_tracker.py] (repository resolution);
    - [Scraper]: [scraper.py] (registry API record and project page);
    - [Visualizer]: [visualizer.py] (the bounded dependency graph).

    Network calls are functions of an explicit world and every request is
    appended to a log, so that "no further request" is a statement about
    the log.  Python exceptions are the [Raise] case of [result]. *)

From Stdlib Require Import ZArith Floats Ascii String List Lia Bool.
From stdpp Require Import gmap strings list sorting.

Set Warnings "-inexact-float,-register-all".
Open Scope string_scope.
Open Scope Z_scope.

(** ** Python values, exceptions and built-ins *)
Module Py.

Inductive pyexc : Type :=
| ValueError | TypeError | OverflowError | IndexError | KeyError
| AttributeError | RequestException.

(** A call either returns or raises. *)
Inductive result (A : Type) : Type :=
| Ok (a : A)
| Raise (e : pyexc).
Arguments Ok {A} a.
Arguments Raise {A} e.

#[export] Instance result_ret : MRet result := fun _ a => Ok a.
#[export] Instance result_bind : MBind result := fun _ _ k m =>
  match m with Ok a => k a | Raise e => Raise e end.

(** JSON values as [json.loads] builds them.  A dict is kept as its
    item list; [dict_get] returns the first item of a key. *)
Inductive pyval : Type :=
| PyNone
| PyBool (b : bool)
| PyInt (z : Z)
| PyFloat (f : float)
| PyStr (s : string)
| PyList (l : list pyval)
| PyDict (d : list (string * pyval)).

Definition pydict : Type := list (string * pyval).

Fixpoint dict_get {V : Type} (d : list (string * V)) (k : string) : option V :=
  match d with
  | [] => None
  | (k', v) :: d' => if String.eqb k' k then Some v else dict_get d' k
  end.

(** [bool(x)]: what [if x:] tests. *)
Definition truthy (v : pyval) : bool :=
  match v with
  | PyNone => false
  | PyBool b => b
  | PyInt z => negb (z =? 0)
  | PyFloat f => negb (f =? 0)%float
  | PyStr s => negb (String.eqb s "")
  | PyList l => match l with [] => false | _ => true end
  | PyDict d => match d with [] => false | _ => true end
  end.

(** *** Strings *)

Definition ascii_lower (c : ascii) : ascii :=
  let n := N_of_ascii c in
  if ((65 <=? n) && (n <=? 90))%N then ascii_of_N (n + 32) else c.

(** [s.lower()], on the ASCII letters. *)
Fixpoint lower (s : string) : string :=
  match s with
  | EmptyString => EmptyString
  | String c s' => String (ascii_lower c) (lower s')
  end.

(** [needle in hay] for two strings. *)
Fixpoint contains (needle hay : string) : bool :=
  if String.prefix needle hay then true
  else match hay with
       | EmptyString => false
       | String _ hay' => contains needle hay'
       end.

(** The characters [str.strip()] removes (the ASCII ones). *)
Definition is_space (c : ascii) : bool :=
  let n := N_of_ascii c in
  (((9 <=? n) && (n <=? 13)) || ((28 <=? n) && (n <=? 32)))%N.

Fixpoint lstrip (s : string) : string :=
  match s with
  | EmptyString => EmptyString
  | String c s' => if is_space c then lstrip s' else s
  end.

Fixpoint rstrip (s : string) : string :=
  match s with
  | EmptyString => EmptyString
  | String c s' =>
      match rstrip s' with
      | EmptyString => if is_space c then EmptyString else String c EmptyString
      | r => String c r
      end
  end.

Definition strip (s : string) : string := rstrip (lstrip s).

(** [s.split(sep)[0]] for a one-character separator: the part of [s]
    before the first [sep] (all of [s] when there is none). *)
Fixpoint split_head (sep : ascii) (s : string) : string :=
  match s with
  | EmptyString => EmptyString
  | String c s' => if Ascii.eqb c sep then EmptyString else String c (split_head sep s')
  end.

(** [s.strip(x)] for one character [x]: it is removed from both ends. *)
Fixpoint lstrip_char (x : ascii) (s : string) : string :=
  match s with
  | EmptyString => EmptyString
  | String c s' => if Ascii.eqb c x then lstrip_char x s' else s
  end.

Fixpoint rstrip_char (x : ascii) (s : string) : string :=
  match s with
  | EmptyString => EmptyString
  | String c s' =>
      match rstrip_char x s' with
      | EmptyString => if Ascii.eqb c x then EmptyString else String c EmptyString
      | r => String c r
      end
  end.

Definition strip_char (x : ascii) (s : string) : string :=
  rstrip_char x (lstrip_char x s).

(** *** Numbers

    Python's [float] is IEEE binary64: the kernel's [float].  An [int]
    is unbounded: [Z]. *)

(** The binary64 nearest to the integer [z] (ties to even), as the
    conversion of an [int] operand of a mixed operation yields it. *)
Definition float_of_Z (z : Z) : float :=
  SF2Prim (binary_normalize prec emax z 0 false).

(** The binary64 nearest to [m * 10^e10], for [0 <= m]. *)
Definition float_of_decimal (m e10 : Z) : float :=
  match m with
  | Zpos p =>
      if 0 <=? e10 then float_of_Z (m * 10 ^ e10)
      else SF2Prim (SFdiv prec emax (S754_finite false p 0)
                      (S754_finite false (Z.to_pos (10 ^ (- e10))) 0))
  | _ => 0%float
  end.

Definition is_digit (c : ascii) : bool :=
  let n := N_of_ascii c in ((48 <=? n) && (n <=? 57))%N.

Definition digit_val (c : ascii) : Z := Z.of_N (N_of_ascii c) - 48.

(** The rest of a [digitpart ::= digit (["_"] digit)*]: the digits read
    are pushed on [acc], [n] counts them. *)
Fixpoint digits_go (acc n : Z) (l : list ascii) : Z * Z * list ascii :=
  match l with
  | c :: l' =>
      if is_digit c then digits_go (acc * 10 + digit_val c) (n + 1) l'
      else if Ascii.eqb c "_" then
        match l' with
        | d :: l'' =>
            if is_digit d then digits_go (acc * 10 + digit_val d) (n + 1) l''
            else (acc, n, l)
        | [] => (acc, n, l)
        end
      else (acc, n, l)
  | [] => (acc, n, l)
  end.

Definition digitpart (acc : Z) (l : list ascii) : option (Z * Z * list ascii) :=
  match l with
  | c :: l' =>
      if is_digit c then Some (digits_go (acc * 10 + digit_val c) 1 l') else None
  | [] => None
  end.

(** [number ::= [digitpart] "." digitpart | digitpart ["."]]: all the
    digits as one integer, and how many of them follow the point. *)
Definition number (l : list ascii) : option (Z * Z * list ascii) :=
  match digitpart 0 l with
  | Some (m, _, rest) =>
      match rest with
      | c :: rest' =>
          if Ascii.eqb c "." then
            match digitpart m rest' with
            | Some r => Some r
            | None => Some (m, 0, rest')
            end
          else Some (m, 0, rest)
      | [] => Some (m, 0, rest)
      end
  | None =>
      match l with
      | c :: rest' => if Ascii.eqb c "." then digitpart 0 rest' else None
      | [] => None
      end
  end.

Definition sign (l : list ascii) : bool * list ascii :=
  match l with
  | c :: l' =>
      if Ascii.eqb c "-" then (true, l')
      else if Ascii.eqb c "+" then (false, l')
      else (false, l)
  | [] => (false, l)
  end.

(** [exponent ::= ("e" | "E") [sign] digitpart], up to the end of the
    string; no exponent is the exponent 0. *)
Definition exponent (l : list ascii) : option Z :=
  match l with
  | [] => Some 0
  | c :: l' =>
      if Ascii.eqb (ascii_lower c) "e" then
        let '(neg, l'') := sign l' in
        match digitpart 0 l'' with
        | Some (e, _, []) => Some (if neg then - e else e)
        | _ => None
        end
      else None
  end.

(** [float(s)] for a string: surrounding whitespace is dropped, then
    [[sign] (floatnumber | "inf" | "infinity" | "nan")], letters in any
    case and digits the ASCII ones; the number is rounded to the nearest
    binary64, ties to even; [None] is [ValueError]. *)
Definition float_of_string (s : string) : option float :=
  let '(neg, body) := sign (list_ascii_of_string (strip s)) in
  let signed (f : float) := if neg then (- f)%float else f in
  let word := lower (string_of_list_ascii body) in
  if String.eqb word "inf" || String.eqb word "infinity" then Some (signed infinity)
  else if String.eqb word "nan" then Some nan
  else
    match number body with
    | Some (m, k, rest) =>
        match exponent rest with
        | Some e => Some (signed (float_of_decimal m (e - k)))
        | None => None
        end
    | None => None
    end.

(** [float(v)].  A string is parsed, a number converted; an [int] too
    large for a binary64 is [OverflowError]; anything else is
    [TypeError]. *)
Definition py_float (v : pyval) : result float :=
  match v with
  | PyFloat f => Ok f
  | PyInt z =>
      let f := float_of_Z z in
      if (PrimFloat.abs f =? infinity)%float then Raise OverflowError else Ok f
  | PyBool b => Ok (if b then 1%float else 0%float)
  | PyStr s =>
      match float_of_string s with
      | Some f => Ok f
      | None => Raise ValueError
      end
  | PyNone | PyList _ | PyDict _ => Raise TypeError
  end.

(** The value of an arithmetic expression: an [int] or a [float]. *)
Inductive pynum : Type :=
| NInt (z : Z)
| NFloat (f : float).

(** [a + b]: exact on two ints, binary64 addition otherwise, an int
    operand converted first (Python raises [OverflowError] on an int
    beyond the binary64 range; the int operands of the scorer are its
    literals and a running sum of at most 25). *)
Definition num_add (a b : pynum) : pynum :=
  match a, b with
  | NInt x, NInt y => NInt (x + y)
  | NInt x, NFloat g => NFloat (float_of_Z x + g)
  | NFloat f, NInt y => NFloat (f + float_of_Z y)
  | NFloat f, NFloat g => NFloat (f + g)
  end.

(** [s >= k] for an int literal [k] that a binary64 holds exactly. *)
Definition num_ge (s : pynum) (k : Z) : bool :=
  match s with
  | NInt z => k <=? z
  | NFloat f => (float_of_Z k <=? f)%float
  end.

(** [s < k], likewise. *)
Definition num_lt (s : pynum) (k : Z) : bool :=
  match s with
  | NInt z => z <? k
  | NFloat f => (f <? float_of_Z k)%float
  end.

Definition num_is_nan (s : pynum) : bool :=
  match s with
  | NInt _ => false
  | NFloat f => PrimFloat.is_nan f
  end.

(** How the integer [z] compares with the number a binary64 stands
    for, [None] for a NaN: Python compares an [int] with a [float] by
    value, without rounding the [int]. *)
Definition Z_compare_SF (z : Z) (x : spec_float) : option comparison :=
  match x with
  | S754_nan => None
  | S754_zero _ => Some (z ?= 0)
  | S754_infinity s => Some (if s then Gt else Lt)
  | S754_finite s m e =>
      let v := if s then Z.neg m else Z.pos m in
      Some (if 0 <=? e then z ?= v * 2 ^ e else z * 2 ^ (- e) ?= v)
  end.

Definition le_of (c : option comparison) : bool :=
  match c with Some Lt | Some Eq => true | _ => false end.

Definition ge_of (c : option comparison) : bool :=
  match c with Some Gt | Some Eq => true | _ => false end.

(** [a <= b] *)
Definition num_le (a b : pynum) : bool :=
  match a, b with
  | NInt x, NInt y => x <=? y
  | NFloat f, NFloat g => (f <=? g)%float
  | NInt x, NFloat g => le_of (Z_compare_SF x (Prim2SF g))
  | NFloat f, NInt y => ge_of (Z_compare_SF y (Prim2SF f))
  end.

(** *** [list.sort(key=...)]

    Python's sort is stable; it is modelled by insertion from the right,
    an element going before the first one whose key is not smaller. *)
Section Sort.
Context {A : Type} (key : A -> Z).

Fixpoint insert_by (x : A) (l : list A) : list A :=
  match l with
  | [] => [x]
  | y :: l' => if key x <=? key y then x :: l else y :: insert_by x l'
  end.

Fixpoint sort_by (l : list A) : list A :=
  match l with
  | [] => []
  | x :: l' => insert_by x (sort_by l')
  end.

End Sort.

(** [l.sort(key=key)]: the keys are computed first, one call per
    element and in order, so a raising [key] leaves without a result;
    then the elements are ordered by their keys. *)
Definition list_sort {A : Type} (key : A -> result Z) (l : list A) : result (list A) :=
  keys ← mapM key l;
  Ok (snd <$> sort_by fst (zip keys l)).

End Py.

(** ** security_analyzer.py *)
Module Security.
Import Py.

(** One entry of a vulnerability's ["affected"] list, and the range
    records below it, with the keys the analyzer reads.  [None] is an
    absent key. *)
Record range_info : Type := {
  r_type : option string;
  r_events : option (list pydict)
}.

Record affected_entry : Type := {
  a_ecosystem_specific : option pydict;
  a_ranges : option (list range_info)
}.

(** A vulnerability as the database returns it.  ["database_specific"]
    and the values below it stay untyped: the analyzer tests them
    itself. *)
Record vulnerability : Type := {
  v_id : option string;
  v_summary : option string;
  v_details : option string;
  v_database_specific : option pyval;
  v_affected : option (list affected_entry);
  v_references : option (list pyval);
  v_published : option string;
  v_modified : option string
}.

(** [self.security_critical_packages] *)
Definition security_critical_packages : gset string :=
  {[ "cryptography"; "django"; "flask"; "requests"; "urllib3";
     "pyopenssl"; "paramiko"; "pyjwt"; "python-jose" ]}.

(** [self.critical_keywords], in the order the source lists them. *)
Definition critical_keywords : list string :=
  [ "remote code execution"; "rce"; "arbitrary code"; "sql injection";
    "authentication bypass"; "privilege escalation"; "buffer overflow";
    "memory corruption"; "denial of service"; "information disclosure";
    "path traversal"; "xss" ].

Definition vulnerability_types : list string :=
  [ "cryptographic"; "encryption"; "authentication" ].

(** Lines 63-72: the CVSS score, when there is a truthy one that
    [float()] accepts.  Only [ValueError] and [TypeError] are caught. *)
Definition add_cvss (v : vulnerability) (score : pynum) : result pynum :=
  match default (PyDict []) (v_database_specific v) with
  | PyDict database_specific =>
      match dict_get database_specific "cvss_score" with
      | Some cvss_score =>
          if truthy cvss_score then
            match py_float cvss_score with
            | Ok f => Ok (num_add score (NFloat f))
            | Raise ValueError | Raise TypeError => Ok score
            | Raise e => Raise e
            end
          else Ok score
      | None => Ok score
      end
  | _ => Ok score
  end.

(** Lines 75-78 *)
Definition description (v : vulnerability) : string :=
  lower (default "" (v_summary v)) +:+ lower (default "" (v_details v)).

(** Lines 81-83 *)
Definition add_keywords (desc : string) (score : pynum) : pynum :=
  fold_left (fun s keyword => if contains keyword desc then num_add s (NInt 2) else s)
    critical_keywords score.

(** Lines 86-87 *)
Definition add_critical_package (package_name : string) (score : pynum) : pynum :=
  if bool_decide (lower package_name ∈ security_critical_packages)
  then num_add score (NInt 1) else score.

(** Lines 90-94 *)
Definition add_vulnerability_type (desc : string) (score : pynum) : pynum :=
  if existsb (fun kw => contains kw desc) vulnerability_types
  then num_add score (NFloat 1.5) else score.

Definition affects_security (entry : affected_entry) : bool :=
  match default [] (a_ecosystem_specific entry) with
  | [] => false
  | ecosystem_specific =>
      truthy (default (PyBool false) (dict_get ecosystem_specific "affects_security"))
  end.

(** Lines 97-103 *)
Definition add_affected (v : vulnerability) (score : pynum) : pynum :=
  fold_left (fun s entry => if affects_security entry then num_add s (NInt 2) else s)
    (default [] (v_affected v)) score.

(** Lines 61-103: the accumulated [severity_score]. *)
Definition severity_score (v : vulnerability) (package_name : string) : result pynum :=
  s ← add_cvss v (NInt 0);
  let desc := description v in
  Ok (add_affected v
        (add_vulnerability_type desc
           (add_critical_package package_name
              (add_keywords desc s)))).

(** Lines 105-112: the score's bucket. *)
Definition classify (severity_score : pynum) : string :=
  if num_ge severity_score 9 then "CRITICAL"
  else if num_ge severity_score 7 then "HIGH"
  else if num_ge severity_score 4 then "MEDIUM"
  else "LOW".

Definition _determine_severity (v : vulnerability) (package_name : string) : result string :=
  s ← severity_score v package_name;
  Ok (classify s).

(** An entry of the report's ["vulnerabilities"] list. *)
Record vuln_info : Type := {
  i_id : string;
  i_severity : string;
  i_summary : string;
  i_details : string;
  i_fixed_versions : list pyval;
  i_references : list pyval;
  i_published : string;
  i_modified : string;
  i_ecosystem_specific : pydict
}.

Record report : Type := {
  total_vulnerabilities : Z;
  severity_counts : gmap string Z;
  vulnerabilities : list vuln_info
}.

(** Lines 131-137 *)
Definition fixed_of_range (r : range_info) : list pyval :=
  if bool_decide (r_type r = Some "ECOSYSTEM") then
    omap (fun event => dict_get event "fixed") (default [] (r_events r))
  else [].

Definition fixed_versions (v : vulnerability) : list pyval :=
  flat_map (fun affected => flat_map fixed_of_range (default [] (a_ranges affected)))
    (default [] (v_affected v)).

(** Lines 149-151: [vuln.get("affected", [{}])[0].get("ecosystem_specific", {})];
    an ["affected"] list that is there and empty has no element 0. *)
Definition first_ecosystem_specific (v : vulnerability) : result pydict :=
  match v_affected v with
  | None => Ok []
  | Some [] => Raise IndexError
  | Some (entry :: _) => Ok (default [] (a_ecosystem_specific entry))
  end.

(** [d[k] += 1] *)
Definition increment (k : string) (d : gmap string Z) : result (gmap string Z) :=
  match d !! k with
  | Some n => Ok (<[k := n + 1]> d)
  | None => Raise KeyError
  end.

(** Lines 140-152: the entry of a finding, given its severity. *)
Definition vuln_info_of (vuln : vulnerability) (severity : string) : result vuln_info :=
  ecosystem_specific ← first_ecosystem_specific vuln;
  Ok {| i_id := default "Unknown" (v_id vuln);
        i_severity := severity;
        i_summary := default "No description available" (v_summary vuln);
        i_details := default "" (v_details vuln);
        i_fixed_versions := fixed_versions vuln;
        i_references := default [] (v_references vuln);
        i_published := default "Unknown" (v_published vuln);
        i_modified := default "Unknown" (v_modified vuln);
        i_ecosystem_specific := ecosystem_specific |}.

(** Lines 127-154: one turn of the loop, on the counts and the list
    built so far. *)
Definition process_one (package_name : string)
    (acc : gmap string Z * list vuln_info) (vuln : vulnerability)
  : result (gmap string Z * list vuln_info) :=
  severity ← _determine_severity vuln package_name;
  counts ← increment severity acc.1;
  info ← vuln_info_of vuln severity;
  Ok (counts, (acc.2 ++ [info])%list).

Fixpoint process_loop (package_name : string)
    (acc : gmap string Z * list vuln_info) (vulns : list vulnerability)
  : result (gmap string Z * list vuln_info) :=
  match vulns with
  | [] => Ok acc
  | vuln :: rest =>
      acc' ← process_one package_name acc vuln;
      process_loop package_name acc' rest
  end.

(** Line 157 *)
Definition severity_order : gmap string Z :=
  {[ "CRITICAL" := 0; "HIGH" := 1; "MEDIUM" := 2; "LOW" := 3 ]}.

(** Line 159: [severity_order[x["severity"]]] *)
Definition sort_key (x : vuln_info) : result Z :=
  match severity_order !! i_severity x with
  | Some k => Ok k
  | None => Raise KeyError
  end.

Definition initial_counts : gmap string Z :=
  {[ "CRITICAL" := 0; "HIGH" := 0; "MEDIUM" := 0; "LOW" := 0 ]}.

(** Lines 114-162 *)
Definition _process_vulnerabilities (vulns : list vulnerability)
    (package_name : string) (package_version : option string) : result report :=
  acc ← process_loop package_name (initial_counts, []) vulns;
  sorted ← list_sort sort_key acc.2;
  Ok {| total_vulnerabilities := Z.of_nat (length vulns);
        severity_counts := acc.1;
        vulnerabilities := sorted |}.

(** *** Vocabulary of the properties *)

(** [sum(d.values())] *)
Definition total (d : gmap string Z) : Z :=
  map_fold (fun _ n acc => n + acc) 0 d.

(** An entry does not rank after another in the report's order. *)
Definition rank_le (a b : vuln_info) : Prop :=
  exists ka kb,
    severity_order !! i_severity a = Some ka /\
    severity_order !! i_severity b = Some kb /\ ka <= kb.

(** The entry the loop builds for a finding. *)
Definition entry_of (package_name : string) (vuln : vulnerability) (info : vuln_info) : Prop :=
  exists severity,
    _determine_severity vuln package_name = Ok severity /\
    vuln_info_of vuln severity = Ok info.

End Security.

(** ** issue_tracker.py *)
Module Issues.
Import Py.

(** What the registry answers for a package, as far as the tracker
    reads it: [data["info"].get("project_urls", {})], [None] when the
    key is absent or null (either way no URL is found). *)
Record pypi_data : Type := {
  project_urls : option (list (string * pyval))
}.

Record repo_info : Type := {
  repo_name : string;
  repo_url : string;
  repo_source : string
}.

Record repo_stats : Type := {
  open_issues : Z;
  pull_requests : Z
}.

Record issue : Type := {
  issue_title : string;
  issue_url : string;
  issue_comments : string
}.

(** The network.  [pypi] is [None] when the request, its status check
    or the decoding of its body raises.  The three page scrapers catch
    every exception themselves and return their zero value then, so
    each is a total function of the page's URL. *)
Record world : Type := {
  pypi : string -> option pypi_data;
  stats_of : string -> repo_stats;
  recent_of : string -> list issue;
  top_of : string -> list issue
}.

(** The URLs requested so far, oldest first. *)
Definition log : Type := list string.

Definition pypi_url (package_name : string) : string :=
  "https://pypi.org/pypi/" +:+ package_name +:+ "/json".

(** Lines 51-57: the first URL of the mapping that mentions the forge.
    A truthy value that is no string has no [lower]: the [except]
    clause turns that into the empty result. *)
Fixpoint first_github (package_name : string) (urls : list (string * pyval))
  : option repo_info :=
  match urls with
  | [] => None
  | (_, url) :: rest =>
      if truthy url then
        match url with
        | PyStr u =>
            if contains "github.com" (lower u) then
              Some {| repo_name := package_name;
                      repo_url := strip_char "/" u;
                      repo_source := "PyPI project_urls" |}
            else first_github package_name rest
        | _ => None
        end
      else first_github package_name rest
  end.

(** Lines 39-62: [None] is the empty dict. *)
Definition _get_repo_from_pypi (w : world) (package_name : string) (l : log)
  : option repo_info * log :=
  let l := (l ++ [pypi_url package_name])%list in
  match pypi w package_name with
  | Some data => (first_github package_name (default [] (project_urls data)), l)
  | None => (None, l)
  end.

Definition _get_repo_stats (w : world) (url : string) (l : log) : repo_stats * log :=
  (stats_of w url, (l ++ [url])%list).

Definition _get_recent_issues (w : world) (url : string) (l : log) : list issue * log :=
  (recent_of w (url +:+ "/issues"), (l ++ [url +:+ "/issues"])%list).

Definition _get_top_issues (w : world) (url : string) (l : log) : list issue * log :=
  (top_of w (url +:+ "/issues?q=is:issue&sort=comments"),
   (l ++ [url +:+ "/issues?q=is:issue&sort=comments"])%list).

Record summary : Type := {
  s_repository : repo_info;
  s_summary : repo_stats;
  s_recent_issues : list issue;
  s_top_issues : list issue
}.

(** What [analyze_issues] returns: the summary or the error record. *)
Inductive analysis : Type :=
| Summary (s : summary)
| Error (message : string).

(** A fallback search, had the class one. *)
Definition search : Type := world -> string -> log -> option repo_info * log.

(** Lines 19-37, over the attribute [self._search_github_repo]:
    [None] when the class has no such attribute, and then the lookup
    on line 23 raises [AttributeError]. *)
Definition analyze_issues_with (_search_github_repo : option search)
    (w : world) (package_name : string) (l : log) : result analysis * log :=
  let '(repo, l) := _get_repo_from_pypi w package_name l in
  let found : result (option repo_info * log) :=
    match repo with
    | Some _ => Ok (repo, l)
    | None =>
        match _search_github_repo with
        | Some f => Ok (f w package_name l)
        | None => Raise AttributeError
        end
    end in
  match found with
  | Raise e => (Raise e, l)
  | Ok (None, l) =>
      (Ok (Error ("Could not find GitHub repository for " +:+ package_name)), l)
  | Ok (Some repo, l) =>
      let '(main_stats, l) := _get_repo_stats w (repo_url repo) l in
      let '(recent, l) := _get_recent_issues w (repo_url repo) l in
      let '(top, l) := _get_top_issues w (repo_url repo) l in
      (Ok (Summary {| s_repository := repo; s_summary := main_stats;
                      s_recent_issues := recent; s_top_issues := top |}), l)
  end.

(** The methods [class IssueTracker] defines (lines 11-160); there is
    no [_search_github_repo] among them, in this class or elsewhere. *)
Definition IssueTracker_methods : list string :=
  [ "__init__"; "analyze_issues"; "_get_repo_from_pypi"; "_get_repo_stats";
    "_get_recent_issues"; "_get_top_issues" ].

(** [IssueTracker.analyze_issues] *)
Definition analyze_issues : world -> string -> log -> result analysis * log :=
  analyze_issues_with None.

End Issues.

(** ** scraper.py *)
Module Scraper.
Import Py.

(** *** The parsed page

    A [BeautifulSoup] tree with what the scraper looks at: tag names,
    the tokens of the [class] attribute, and text. *)
Inductive node : Type :=
| Text (s : string)
| Elem (tag : string) (classes : list string) (children : list node).

(** The descendants of a node, in document order. *)
Fixpoint descendants (n : node) : list node :=
  match n with
  | Text _ => []
  | Elem _ _ children =>
      (fix go (cs : list node) : list node :=
         match cs with
         | [] => []
         | c :: cs' => (c :: descendants c ++ go cs')%list
         end) children
  end.

Definition descendants_of (ns : list node) : list node :=
  flat_map (fun c => c :: descendants c) ns.

(** [.text]: the text below a node, concatenated. *)
Fixpoint text (n : node) : string :=
  match n with
  | Text s => s
  | Elem _ _ children =>
      (fix go (cs : list node) : string :=
         match cs with
         | [] => ""
         | c :: cs' => text c +:+ go cs'
         end) children
  end.

(** Whether a node is a [tag] element, with class [cls] when one is
    asked for. *)
Definition matches (tag : string) (cls : option string) (n : node) : bool :=
  match n with
  | Text _ => false
  | Elem t classes _ =>
      String.eqb t tag &&
      match cls with
      | Some c => existsb (String.eqb c) classes
      | None => true
      end
  end.

(** [x.find_all(tag, {"class": cls})] and [x.find(...)], below the
    nodes [ns]. *)
Definition find_all (tag : string) (cls : option string) (ns : list node) : list node :=
  List.filter (matches tag cls) (descendants_of ns).

Definition find (tag : string) (cls : option string) (ns : list node) : option node :=
  head (find_all tag cls ns).

Definition children_of (n : node) : list node :=
  match n with
  | Text _ => []
  | Elem _ _ children => children
  end.

(** Line 73: the fallback is a plain string, braces included. *)
Definition installation_fallback : string := "pip install {package_name}".

(** Lines 70-73 *)
Definition _extract_installation_guide (soup : list node) : string :=
  match find "span" (Some "package-header__pip-instructions") soup with
  | Some install_div => strip (text install_div)
  | None => installation_fallback
  end.

(** Lines 76-84 *)
Definition _extract_latest_releases (soup : list node) : list string :=
  omap (fun release =>
          match find "p" (Some "release__version") (children_of release) with
          | Some version => Some (strip (text version))
          | None => None
          end)
    (take 5 (find_all "a" (Some "release__card") soup)).

(** Lines 87-97 *)
Definition _extract_project_stats (soup : list node) : gmap string string :=
  match find "div" (Some "package-header__stats") soup with
  | Some stats_div =>
      fold_left
        (fun stats stat =>
           match find "span" (Some "package-header__stat-name") (children_of stat),
                 find "span" (Some "package-header__stat-value") (children_of stat) with
           | Some name, Some value => <[strip (text name) := strip (text value)]> stats
           | _, _ => stats
           end)
        (find_all "p" None (children_of stats_div)) ∅
  | None => ∅
  end.

Record community_info : Type := {
  maintainers : list string
}.

(** Lines 100-114 *)
Definition _extract_community_info (soup : list node) : community_info :=
  {| maintainers :=
       match find "div" (Some "maintainers") soup with
       | Some maintainers_div =>
           map (fun m => strip (text m))
             (find_all "span" (Some "maintainer") (children_of maintainers_div))
       | None => []
       end |}.

(** *** The registry

    The JSON record of a package.  The keys the module subscripts
    ([data["info"]], [info["version"]], [data["releases"]]) are fields;
    the keys it reads with [get] are optional, [None] for an absent
    key. *)
Record pypi_info : Type := {
  version : string;
  author : option pyval;
  license : option pyval;
  summary : option pyval;
  home_page : option pyval;
  docs_url : option pyval;
  requires_python : option pyval;
  requires_dist : option (list string)
}.

Record pypi_data : Type := {
  info : pypi_info;
  releases : list (string * list pyval)
}.

(** The network: the API record of a package and the project page at a
    URL, [None] when the request or its status check raises. *)
Record world : Type := {
  api : string -> option pypi_data;
  page : string -> option (list node)
}.

Definition log : Type := list string.

(** A [str] argument that [if version:] and [version or ...] accept. *)
Definition given (version : option string) : option string :=
  match version with
  | Some v => if String.eqb v "" then None else Some v
  | None => None
  end.

(** Lines 117-128.  [release_data] is computed and not used. *)
Definition _extract_dependencies (data : pypi_data) (version : option string) : list string :=
  let release_data :=
    match given version with
    | Some v =>
        match dict_get (releases data) v with
        | Some files => files
        | None => default [] (dict_get (releases data) (Scraper.version (info data)))
        end
    | None => default [] (dict_get (releases data) (Scraper.version (info data)))
    end in
  match requires_dist (info data) with
  | Some ((_ :: _) as deps) =>
      map (fun dep => strip (split_head ";" dep))
        (List.filter (fun dep => negb (String.eqb dep "")) deps)
  | _ => []
  end.

Record api_data : Type := {
  r_name : string;
  r_version : string;
  r_author : pyval;
  r_license : pyval;
  r_description : pyval;
  r_homepage : pyval;
  r_documentation : pyval;
  r_requires_python : pyval;
  r_dependencies : list string
}.

Definition api_url (package_name : string) : string :=
  "https://pypi.org/pypi/" +:+ package_name +:+ "/json".

(** Lines 29-47 *)
Definition _fetch_api_data (w : world) (package_name : string)
    (version : option string) (l : log) : result api_data * log :=
  let url := api_url package_name in
  let l := (l ++ [url])%list in
  match api w package_name with
  | None => (Raise RequestException, l)
  | Some data =>
      let info := info data in
      (Ok {| r_name := package_name;
             r_version := default (Scraper.version info) (given version);
             r_author := default (PyStr "Unknown") (author info);
             r_license := default (PyStr "Not specified") (license info);
             r_description := default (PyStr "No description available") (summary info);
             r_homepage := default (PyStr "Not available") (home_page info);
             r_documentation := default (PyStr "Not available") (docs_url info);
             r_requires_python := default (PyStr "Not specified") (requires_python info);
             r_dependencies := _extract_dependencies data version |}, l)
  end.

Record web_data : Type := {
  installation_guide : string;
  latest_releases : list string;
  project_stats : gmap string string;
  community : community_info
}.

Definition page_url (package_name : string) (version : option string) : string :=
  let url := "https://pypi.org/project/" +:+ package_name in
  match given version with
  | Some v => url +:+ "/" +:+ v
  | None => url
  end.

(** Lines 50-67 *)
Definition _scrape_pypi_page (w : world) (package_name : string)
    (version : option string) (l : log) : result web_data * log :=
  let url := page_url package_name version in
  let l := (l ++ [url])%list in
  match page w url with
  | None => (Raise RequestException, l)
  | Some soup =>
      (Ok {| installation_guide := _extract_installation_guide soup;
             latest_releases := _extract_latest_releases soup;
             project_stats := _extract_project_stats soup;
             community := _extract_community_info soup |}, l)
  end.

(** Lines 6-26: the two records side by side (their keys are
    disjoint, so [{**api_data, **web_data}] loses nothing). *)
Definition fetch_package_info (w : world) (package_name : string)
    (version : option string) (l : log) : result (api_data * web_data) * log :=
  match _fetch_api_data w package_name version l with
  | (Raise e, l) => (Raise e, l)
  | (Ok a, l) =>
      match _scrape_pypi_page w package_name version l with
      | (Raise e, l) => (Raise e, l)
      | (Ok p, l) => (Ok (a, p), l)
      end
  end.

End Scraper.

(** ** visualizer.py *)
Module Visualizer.
Import Py.

(** The registry record of a package as the builder reads it: both
    keys of [data["info"]] are read with [get]. *)
Record package_info : Type := {
  version : option string;
  requires_dist : option (list string)
}.

(** [fetch_package_info]: [None] when the request or its status check
    raises [RequestException]. *)
Definition registry : Type := string -> option package_info.

(** A statement of the [Digraph]: [dot.node(name, label)], with the
    fill colour when one is given, and [dot.edge(tail, head)]. *)
Inductive stmt : Type :=
| Node (name label : string) (fillcolor : option string)
| Edge (tail head : string).

#[export] Instance stmt_eq_dec : EqDecision stmt.
Proof. solve_decision. Defined.

(** The state the closure [add_dependencies] works on: the graph's
    statements in the order they were issued, the [visited] set, and
    the registry lookups made so far, each with the depth it was made
    at. *)
Record state : Type := {
  dot : list stmt;
  visited : gset string;
  fetched : list (string * Z)
}.

Definition initial : state := {| dot := []; visited := ∅; fetched := [] |}.

Definition add_stmt (s : stmt) (st : state) : state :=
  {| dot := (dot st ++ [s])%list; visited := visited st; fetched := fetched st |}.

(** Lines 36 and 39: [visited.add(pkg_name)], then the lookup. *)
Definition visit (pkg_name : string) (current_depth : Z) (st : state) : state :=
  {| dot := dot st;
     visited := {[pkg_name]} ∪ visited st;
     fetched := (fetched st ++ [(pkg_name, current_depth)])%list |}.

(** Line 49: [dep.split(" ")[0].split(";")[0].strip()] *)
Definition dep_name_of (dep : string) : string :=
  strip (split_head ";" (split_head " " dep)).

Definition node_label (pkg_name : string) (data : package_info) : string :=
  pkg_name +:+ String "010"%char (default "unknown" (version data)).

Section Build.
Context (fetch_package_info : registry) (max_depth : Z).

Section Loop.
Context (recurse : string -> Z -> state -> option state).
Context (pkg_name : string) (current_depth : Z).

(** Lines 46-54: the loop over [requires_dist], [recurse] being the
    nested call. *)
Fixpoint each_dep (deps : list string) (st : state) : option state :=
  match deps with
  | [] => Some st
  | dep :: deps' =>
      let dep_name := dep_name_of dep in
      if String.eqb dep "" || String.eqb dep_name "" then each_dep deps' st
      else
        let st := add_stmt (Edge pkg_name dep_name) st in
        if bool_decide (dep_name ∈ visited st) then each_dep deps' st
        else
          match recurse dep_name (current_depth + 1) st with
          | Some st' => each_dep deps' st'
          | None => None
          end
  end.

End Loop.

(** Lines 32-58.  [fuel] bounds the nesting of the calls; [None] is a
    run that needs more. *)
Fixpoint add_dependencies (fuel : nat) (pkg_name : string) (current_depth : Z)
    (st : state) : option state :=
  match fuel with
  | O => None
  | S fuel' =>
      if (max_depth <=? current_depth) || bool_decide (pkg_name ∈ visited st)
      then Some st
      else
        let st := visit pkg_name current_depth st in
        match fetch_package_info pkg_name with
        | None => Some (add_stmt (Node pkg_name pkg_name (Some "lightgray")) st)
        | Some data =>
            each_dep (add_dependencies fuel') pkg_name current_depth
              (default [] (requires_dist data))
              (add_stmt (Node pkg_name (node_label pkg_name data) None) st)
        end
  end.

(** Lines 7-62, with the given fuel. *)
Definition build (fuel : nat) (package_name : string) : option state :=
  add_dependencies fuel package_name 0 initial.

(** [create_dependency_graph]: one level of nesting for each depth
    below [max_depth], and one for the call that stops. *)
Definition create_dependency_graph (package_name : string) : option state :=
  build (S (Z.to_nat max_depth)) package_name.

End Build.

(** *** Vocabulary of the properties *)

(** [reach g root p d]: the edges of [g] hold a path of [d] edges from
    [root] to [p]. *)
Inductive reach (g : list stmt) (root : string) : string -> Z -> Prop :=
| reach_root : reach g root root 0
| reach_edge p q d : reach g root p d -> Edge p q ∈ g -> reach g root q (d + 1).

End Visualizer.

(** ** security_analyzer.py: the query to the database *)
Module Analyzer.
Import Py Security.

(** The JSON body of the POST: [{"package": {"name": ..., "ecosystem":
    "PyPI"}}], with ["version"] when one is sent. *)
Record query : Type := {
  q_name : string;
  q_ecosystem : string;
  q_version : option string
}.

(** What the database does with a query: it answers, and the decoded
    body has a ["vulns"] list or no such key; or the request (or its
    status check) raises a [RequestException] whose text is [text]. *)
Inductive answer : Type :=
| Answered (vulns : option (list vulnerability))
| RequestFailed (text : string).

Definition osv : Type := query -> answer.

(** How a call ends: with a value, with the [Exception] of line 56 and
    its message, or with a built-in exception. *)
Inductive outcome (A : Type) : Type :=
| Returned (a : A)
| Failed (message : string)
| Raised (e : pyexc).
Arguments Returned {A} a.
Arguments Failed {A} message.
Arguments Raised {A} e.

(** Lines 47-49 *)
Definition query_of (package_name : string) (package_version : option string) : query :=
  {| q_name := package_name;
     q_ecosystem := "PyPI";
     q_version :=
       match package_version with
       | Some v => if String.eqb v "" then None else Some v
       | None => None
       end |}.

(** Lines 44-56 *)
Definition _fetch_vulnerabilities (w : osv) (package_name : string)
    (package_version : option string) : outcome (list vulnerability) :=
  match w (query_of package_name package_version) with
  | Answered vulns => Returned (default [] vulns)
  | RequestFailed text => Failed ("Failed to fetch security data: " +:+ text)
  end.

(** Lines 36-42 *)
Definition analyze_package (w : osv) (package_name : string)
    (package_version : option string) : outcome report :=
  match _fetch_vulnerabilities w package_name package_version with
  | Returned vulnerabilities =>
      match _process_vulnerabilities vulnerabilities package_name package_version with
      | Ok r => Returned r
      | Raise e => Raised e
      end
  | Failed message => Failed message
  | Raised e => Raised e
  end.

End Analyzer.

(** ** utils.py: the cells of the vulnerability table *)
Module Display.
Import Py Security.

(** Lines 70-75: the dict literal and its [get(..., "white")]. *)
Definition severity_colors : gmap string string :=
  {[ "CRITICAL" := "red"; "HIGH" := "yellow"; "MEDIUM" := "magenta"; "LOW" := "blue" ]}.

Definition severity_style (severity : string) : string :=
  default "white" (severity_colors !! severity).

(** [sep.join(l)]: every item has to be a [str]. *)
Fixpoint strings_of (l : list pyval) : result (list string) :=
  match l with
  | [] => Ok []
  | PyStr s :: rest => strings ← strings_of rest; Ok (s :: strings)
  | _ :: _ => Raise TypeError
  end.

Fixpoint concat_with (sep : string) (l : list string) : string :=
  match l with
  | [] => ""
  | [s] => s
  | s :: rest => s +:+ sep +:+ concat_with sep rest
  end.

Definition join (sep : string) (l : list pyval) : result string :=
  strings ← strings_of l;
  Ok (concat_with sep strings).

(** Lines 77-81 *)
Definition fixed_versions_text (fixed_versions : list pyval) : result string :=
  match fixed_versions with
  | [] => Ok "No fix available"
  | _ => join ", " fixed_versions
  end.

(** A row of the table: the ID, the severity and its style, the
    summary, the fixed versions. *)
Record row : Type := {
  row_id : string;
  row_severity : string;
  row_style : string;
  row_summary : string;
  row_fixed : string
}.

(** Lines 70-88: the row of one entry. *)
Definition row_of (vuln : vuln_info) : result row :=
  fixed_versions ← fixed_versions_text (i_fixed_versions vuln);
  Ok {| row_id := i_id vuln;
        row_severity := i_severity vuln;
        row_style := severity_style (i_severity vuln);
        row_summary := i_summary vuln;
        row_fixed := fixed_versions |}.

(** Lines 62-92: the table, or the note that there is nothing to
    show. *)
Inductive details : Type :=
| Table (rows : list row)
| NoVulnerabilities.

Definition vulnerability_details (r : report) : result details :=
  match vulnerabilities r with
  | [] => Ok NoVulnerabilities
  | vulns => rows ← mapM row_of vulns; Ok (Table rows)
  end.

End Display.

(** ** issue_tracker.py: the repository's pages *)
Module IssuePages.
Import Py Issues.

(** A parsed page, with what the tracker looks at: tag names, the
    tokens of the [class] attribute, the other attributes, text. *)
Inductive node : Type :=
| Text (s : string)
| Elem (tag : string) (classes : list string) (attrs : list (string * string))
    (children : list node).

Fixpoint descendants (n : node) : list node :=
  match n with
  | Text _ => []
  | Elem _ _ _ children =>
      (fix go (cs : list node) : list node :=
         match cs with
         | [] => []
         | c :: cs' => (c :: descendants c ++ go cs')%list
         end) children
  end.

Definition descendants_of (ns : list node) : list node :=
  flat_map (fun c => c :: descendants c) ns.

Fixpoint text (n : node) : string :=
  match n with
  | Text s => s
  | Elem _ _ _ children =>
      (fix go (cs : list node) : string :=
         match cs with
         | [] => ""
         | c :: cs' => text c +:+ go cs'
         end) children
  end.

Definition children_of (n : node) : list node :=
  match n with
  | Text _ => []
  | Elem _ _ _ children => children
  end.

Definition tag_is (tag : string) (n : node) : bool :=
  match n with
  | Text _ => false
  | Elem t _ _ _ => String.eqb t tag
  end.

(** [n[name]], [None] when [name not in n.attrs]. *)
Definition attr (name : string) (n : node) : option string :=
  match n with
  | Text _ => None
  | Elem _ _ attrs _ => dict_get attrs name
  end.

(** [{"class": re.compile(word + ".*")}]: the pattern is searched in
    each class token, so it asks for a token that contains [word]. *)
Definition class_has (word : string) (n : node) : bool :=
  match n with
  | Text _ => false
  | Elem _ classes _ _ => existsb (contains word) classes
  end.

(** [x.find_all(tag, ...)] and [x.find(tag, ...)] below the nodes [ns],
    with one more test on the element. *)
Definition find_all (tag : string) (test : node -> bool) (ns : list node) : list node :=
  List.filter (fun n => tag_is tag n && test n) (descendants_of ns).

Definition find (tag : string) (test : node -> bool) (ns : list node) : option node :=
  head (find_all tag test ns).

(** [int(s)] for a string: whitespace around, a sign, decimal digits
    (the ASCII ones, fewer than the interpreter's limit on the length
    of a literal), with single underscores between them; [None] is
    [ValueError]. *)
Definition int_of_string (s : string) : option Z :=
  let '(neg, body) := sign (list_ascii_of_string (strip s)) in
  match digitpart 0 body with
  | Some (n, _, []) => Some (if neg then - n else n)
  | _ => None
  end.

(** Lines 73-79: a counter of the landing page; [Ok None] when the
    element or its [title] is missing. *)
Definition counter (soup : list node) (id : string) : result (option Z) :=
  match find "span" (fun n => bool_decide (attr "id" n = Some id)) soup with
  | Some element =>
      match attr "title" element with
      | Some title =>
          match int_of_string title with
          | Some n => Ok (Some n)
          | None => Raise ValueError
          end
      | None => Ok None
      end
  | None => Ok None
  end.

(** The pages of the forge: [None] when the request or its status
    check raises. *)
Definition pages : Type := string -> option (list node).

Definition no_stats : repo_stats := {| open_issues := 0; pull_requests := 0 |}.

(** Lines 64-90: the counts of the page at [url]; any exception gives
    the two zeros. *)
Definition stats_of_page (w : pages) (url : string) : repo_stats :=
  match w url with
  | None => no_stats
  | Some soup =>
      match counter soup "issues-repo-tab-count" with
      | Raise _ => no_stats
      | Ok issues =>
          match counter soup "pull-requests-repo-tab-count" with
          | Raise _ => no_stats
          | Ok pulls =>
              {| open_issues := default 0 issues; pull_requests := default 0 pulls |}
          end
      end
  end.

(** Lines 103-118 (and 139-154): what a row gives: nothing when it has
    no title or no link; [KeyError] when the link has no [href]. *)
Definition issue_of_row (row : node) : result (option issue) :=
  match find "h3" (class_has "markdown-title") (children_of row) with
  | None => Ok None
  | Some title_elem =>
      match find "a" (fun _ => true) (children_of title_elem) with
      | None => Ok None
      | Some title_link =>
          match attr "href" title_link with
          | Some href =>
              Ok (Some {| issue_title := strip (text title_link);
                          issue_url := "https://github.com" +:+ href;
                          issue_comments := "0" |})
          | None => Raise KeyError
          end
      end
  end.

(** Lines 100-120 (and 136-156): the loop over the first five rows. *)
Definition issues_of_soup (soup : list node) : result (list issue) :=
  found ← mapM issue_of_row (take 5 (find_all "div" (class_has "IssueRow-") soup));
  Ok (omap id found).

(** Lines 92-126 and 128-160, for the listing at [url]: any exception
    gives the empty list. *)
Definition issues_of_page (w : pages) (url : string) : list issue :=
  match w url with
  | None => []
  | Some soup =>
      match issues_of_soup soup with
      | Ok issues => issues
      | Raise _ => []
      end
  end.

(** The tracker's network, from the registry and the forge's pages. *)
Definition world_of (registry : string -> option pypi_data) (w : pages) : world :=
  {| pypi := registry;
     stats_of := stats_of_page w;
     recent_of := issues_of_page w;
     top_of := issues_of_page w |}.

End IssuePages.

(** * Properties *)

(** ** Facts about the built-ins *)
Module PyFacts.
Import Py.

(** *** The order of binary64 numbers *)

Lemma SFcompare_finite sx mx ex sy my ey :
  SFcompare (S754_finite sx mx ex) (S754_finite sy my ey) =
  Some (if sx
        then if sy
             then match ex ?= ey with
                  | Eq => CompOpp (Pos.compare mx my) | Lt => Gt | Gt => Lt
                  end
             else Lt
        else if sy then Gt
             else match ex ?= ey with
                  | Eq => Pos.compare mx my | Lt => Lt | Gt => Gt
                  end).
Proof. reflexivity. Qed.

Ltac cmp_cases :=
  repeat match goal with
    | H : context [Z.compare ?a ?b] |- _ => destruct (Z.compare_spec a b); simpl in H
    | |- context [Z.compare ?a ?b] => destruct (Z.compare_spec a b); simpl
    | H : context [Pos.compare ?a ?b] |- _ => destruct (Pos.compare_spec a b); simpl in H
    | |- context [Pos.compare ?a ?b] => destruct (Pos.compare_spec a b); simpl
    end.

Lemma SFcompare_antisym x y c :
  SFcompare x y = Some c -> SFcompare y x = Some (CompOpp c).
Proof.
  destruct x as [sx|sx| |sx mx ex], y as [sy|sy| |sy my ey];
    try (simpl; congruence);
    try (simpl; destruct sx; try destruct sy; simpl; intros [= <-]; reflexivity).
  rewrite !SFcompare_finite. intros [= <-]. f_equal.
  destruct sx, sy; simpl; try reflexivity; cmp_cases; subst; try reflexivity; try lia.
Qed.

Lemma SFleb_trans x y z :
  SFleb x y = true -> SFleb y z = true -> SFleb x z = true.
Proof.
  unfold SFleb.
  destruct x as [sx|sx| |sx mx ex], y as [sy|sy| |sy my ey], z as [sz|sz| |sz mz ez];
    try (simpl; congruence);
    try (simpl; try destruct sx; try destruct sy; try destruct sz; simpl; congruence).
  rewrite !SFcompare_finite.
  destruct sx, sy, sz; simpl; try congruence; cmp_cases; subst; try congruence; try lia.
Qed.

Lemma leb_trans (x y z : float) :
  (x <=? y)%float = true -> (y <=? z)%float = true -> (x <=? z)%float = true.
Proof. rewrite !leb_spec. apply SFleb_trans. Qed.

Lemma SFcompare_nan_r x y : SFcompare x y = None -> x = S754_nan \/ y = S754_nan.
Proof.
  destruct x as [sx|sx| |sx mx ex], y as [sy|sy| |sy my ey]; simpl; auto; discriminate.
Qed.

Lemma Prim2SF_nan (f : float) : Prim2SF f = S754_nan <-> PrimFloat.is_nan f = true.
Proof.
  unfold Prim2SF. destruct (PrimFloat.is_nan f); [tauto|].
  split; [|discriminate].
  destruct (is_zero f); [discriminate|]. destruct (is_infinity f); [discriminate|].
  destruct (Z.frexp f) as [r e]. destruct (shr_fexp _ _ _ _ _) as [m e'].
  destruct (shr_m m); discriminate.
Qed.

(** A float is below a number, or at least it, or is a NaN: exactly one
    of the three. *)
Lemma float_trichotomy (c f : float) :
  PrimFloat.is_nan c = false ->
  ((c <=? f)%float = true /\ (f <? c)%float = false /\ PrimFloat.is_nan f = false) \/
  ((c <=? f)%float = false /\ (f <? c)%float = true /\ PrimFloat.is_nan f = false) \/
  ((c <=? f)%float = false /\ (f <? c)%float = false /\ PrimFloat.is_nan f = true).
Proof.
  intros Hc. rewrite leb_spec, ltb_spec. unfold SFleb, SFltb.
  destruct (SFcompare (Prim2SF c) (Prim2SF f)) as [o|] eqn:E.
  - assert (Hf : PrimFloat.is_nan f = false).
    { destruct (PrimFloat.is_nan f) eqn:N; [|reflexivity].
      apply Prim2SF_nan in N. rewrite N in E. destruct (Prim2SF c); discriminate. }
    rewrite (SFcompare_antisym _ _ _ E). destruct o; simpl; auto.
  - right; right. apply SFcompare_nan_r in E as [E|E].
    + apply Prim2SF_nan in E. congruence.
    + assert (SFcompare (Prim2SF f) (Prim2SF c) = None) as -> by (rewrite E; reflexivity).
      apply Prim2SF_nan in E. auto.
Qed.

(** *** Integers against binary64 numbers *)

Lemma digits2_pos_bounds p :
  2 ^ (Z.pos (digits2_pos p) - 1) <= Z.pos p < 2 ^ Z.pos (digits2_pos p).
Proof.
  induction p as [p IH|p IH|]; simpl digits2_pos; [| |simpl; lia].
  all: rewrite Pos2Z.inj_succ;
    replace (Z.succ (Z.pos (digits2_pos p)) - 1)
      with (Z.succ (Z.pos (digits2_pos p) - 1)) by lia;
    rewrite !Z.pow_succ_r by lia; lia.
Qed.

(** What a finite binary64 is made of: a mantissa below [2^53], which
    is at least [2^52] unless the exponent is the least one. *)
Lemma valid_finite s m e :
  valid_binary (S754_finite s m e) = true ->
  Z.pos m < 2 ^ 53 /\ -1074 <= e /\ (-1074 < e -> 2 ^ 52 <= Z.pos m).
Proof.
  unfold SpecFloat.valid_binary, bounded, canonical_mantissa, fexp, SpecFloat.emin, prec, emax.
  intros H. apply andb_true_iff in H as [H _]. apply Z.eqb_eq in H.
  pose proof (digits2_pos_bounds m) as [Hlo Hhi].
  set (d := Z.pos (digits2_pos m)) in *.
  assert (Hd : (d = 53 /\ -1074 <= e) \/ (e = -1074 /\ d <= 53)) by lia.
  destruct Hd as [[-> ?]|[-> ?]].
  - change (53 - 1) with 52 in Hlo. lia.
  - split; [|lia].
    apply Z.lt_le_trans with (1 := Hhi). apply Z.pow_le_mono_r; lia.
Qed.

Lemma pow2_ge_2 n : 0 < n -> 2 <= 2 ^ n.
Proof. intros. change 2 with (2 ^ 1) at 1. apply Z.pow_le_mono_r; lia. Qed.

(** A positive integer [k] that a binary64 holds exactly, with its
    mantissa and exponent. *)
Definition exact_const (k : Z) (mk : positive) (ek : Z) : Prop :=
  Prim2SF (float_of_Z k) = S754_finite false mk ek /\
  0 < k /\ -1074 <= ek <= 0 /\ Z.pos mk = k * 2 ^ (- ek) /\
  2 ^ 52 <= Z.pos mk < 2 ^ 53.

(** Against such a constant the comparison of binary64 numbers is the
    comparison of the values. *)
Lemma SFleb_const k mk ek x :
  0 < k -> -1074 <= ek <= 0 -> Z.pos mk = k * 2 ^ (- ek) ->
  2 ^ 52 <= Z.pos mk < 2 ^ 53 ->
  valid_binary x = true ->
  SFleb (S754_finite false mk ek) x = le_of (Z_compare_SF k x).
Proof.
  intros Hk [Hek' Hek] Hmk [Hlo Hhi] Hx. unfold SFleb, le_of.
  destruct x as [s|s| |s m e].
  - simpl. destruct (Z.compare_spec k 0); first [reflexivity | lia].
  - destruct s; reflexivity.
  - reflexivity.
  - apply valid_finite in Hx as (Hm & He & Hnorm).
    destruct s.
    { cbn [SFcompare Z_compare_SF]. destruct (0 <=? e) eqn:E.
      - apply Z.leb_le in E. assert (0 < 2 ^ e) by (apply Z.pow_pos_nonneg; lia).
        destruct (Z.compare_spec k (Z.neg m * 2 ^ e)); first [reflexivity | nia].
      - apply Z.leb_gt in E. assert (0 < 2 ^ (- e)) by (apply Z.pow_pos_nonneg; lia).
        destruct (Z.compare_spec (k * 2 ^ (- e)) (Z.neg m)); first [reflexivity | nia]. }
    cbn [SFcompare Z_compare_SF].
    assert (Ha : 0 < 2 ^ (- ek)) by (apply Z.pow_pos_nonneg; lia).
    destruct (Z.compare_spec ek e) as [->|Hlt|Hgt].
    + change (PosDef.Pos.compare_cont Eq mk m) with (Z.pos mk ?= Z.pos m). rewrite Hmk.
      destruct (0 <=? e) eqn:E; [|reflexivity].
      apply Z.leb_le in E. assert (e = 0) as -> by lia.
      change (2 ^ (- 0)) with 1. change (2 ^ 0) with 1. rewrite !Z.mul_1_r. reflexivity.
    + destruct (0 <=? e) eqn:E.
      * apply Z.leb_le in E. assert (1 <= 2 ^ e) by (apply (Z.pow_le_mono_r 2 0 e); lia).
        specialize (Hnorm ltac:(lia)).
        destruct (Z.eq_dec ek 0) as [->|Hne].
        -- simpl in Hmk. assert (2 <= 2 ^ e) by (apply pow2_ge_2; lia).
           destruct (Z.compare_spec k (Z.pos m * 2 ^ e)); first [reflexivity | nia].
        -- assert (2 <= 2 ^ (- ek)) by (apply pow2_ge_2; lia).
           destruct (Z.compare_spec k (Z.pos m * 2 ^ e)); first [reflexivity | nia].
      * apply Z.leb_gt in E. specialize (Hnorm ltac:(lia)).
        assert (Hsplit : 2 ^ (- ek) = 2 ^ (- e) * 2 ^ (e - ek))
          by (rewrite <- Z.pow_add_r by lia; f_equal; lia).
        assert (2 <= 2 ^ (e - ek)) by (apply pow2_ge_2; lia).
        assert (0 < 2 ^ (- e)) by (apply Z.pow_pos_nonneg; lia).
        destruct (Z.compare_spec (k * 2 ^ (- e)) (Z.pos m)); first [reflexivity | nia].
    + assert (E : (0 <=? e) = false) by (apply Z.leb_gt; lia). rewrite E.
      assert (Hsplit : 2 ^ (- e) = 2 ^ (- ek) * 2 ^ (ek - e))
        by (rewrite <- Z.pow_add_r by lia; f_equal; lia).
      assert (2 <= 2 ^ (ek - e)) by (apply pow2_ge_2; lia).
      destruct (Z.compare_spec (k * 2 ^ (- e)) (Z.pos m)); first [reflexivity | nia].
Qed.

Lemma leb_const k mk ek (f : float) :
  exact_const k mk ek ->
  (float_of_Z k <=? f)%float = le_of (Z_compare_SF k (Prim2SF f)).
Proof.
  intros (Hrep & Hk & Hek & Hmk & Hb). rewrite leb_spec, Hrep.
  apply SFleb_const; auto using Prim2SF_valid.
Qed.

Lemma Z_compare_SF_le_mono k z x :
  k <= z -> le_of (Z_compare_SF z x) = true -> le_of (Z_compare_SF k x) = true.
Proof.
  intros Hkz. destruct x as [s|s| |s m e]; simpl; auto.
  - destruct (Z.compare_spec z 0), (Z.compare_spec k 0); auto; lia.
  - set (v := if s then Z.neg m else Z.pos m). destruct (0 <=? e) eqn:E.
    + destruct (Z.compare_spec z (v * 2 ^ e)), (Z.compare_spec k (v * 2 ^ e)); auto; lia.
    + apply Z.leb_gt in E. assert (0 < 2 ^ (- e)) by (apply Z.pow_pos_nonneg; lia).
      destruct (Z.compare_spec (z * 2 ^ (- e)) v), (Z.compare_spec (k * 2 ^ (- e)) v);
        auto; nia.
Qed.

Lemma Z_compare_SF_between k z x :
  le_of (Z_compare_SF k x) = true -> ge_of (Z_compare_SF z x) = true -> k <= z.
Proof.
  destruct x as [s|s| |s m e]; simpl; try discriminate.
  - destruct (Z.compare_spec z 0), (Z.compare_spec k 0); try discriminate; lia.
  - destruct s; discriminate.
  - set (v := if s then Z.neg m else Z.pos m). destruct (0 <=? e) eqn:E.
    + destruct (Z.compare_spec z (v * 2 ^ e)), (Z.compare_spec k (v * 2 ^ e));
        try discriminate; lia.
    + apply Z.leb_gt in E. assert (0 < 2 ^ (- e)) by (apply Z.pow_pos_nonneg; lia).
      destruct (Z.compare_spec (z * 2 ^ (- e)) v), (Z.compare_spec (k * 2 ^ (- e)) v);
        try discriminate; nia.
Qed.

(** *** Thresholds *)

Lemma exact_const_not_nan k mk ek :
  exact_const k mk ek -> PrimFloat.is_nan (float_of_Z k) = false.
Proof.
  intros (Hrep & _). destruct (PrimFloat.is_nan (float_of_Z k)) eqn:N; [|reflexivity].
  apply Prim2SF_nan in N. congruence.
Qed.

(** Of [s >= k], [s < k] and "[s] is a NaN" exactly one holds. *)
Lemma num_trichotomy s k mk ek :
  exact_const k mk ek ->
  (num_ge s k = true /\ num_lt s k = false /\ num_is_nan s = false) \/
  (num_ge s k = false /\ num_lt s k = true /\ num_is_nan s = false) \/
  (num_ge s k = false /\ num_lt s k = false /\ num_is_nan s = true).
Proof.
  intros Hk. destruct s as [z|f]; simpl.
  - destruct (Z.leb_spec k z), (Z.ltb_spec z k); try lia; auto.
  - apply float_trichotomy. eapply exact_const_not_nan; eauto.
Qed.

(** A score that reaches a threshold reaches every lower one. *)
Lemma num_ge_antitone s k k' :
  k <= k' -> (float_of_Z k <=? float_of_Z k')%float = true ->
  num_ge s k' = true -> num_ge s k = true.
Proof.
  intros Hkk Hff. destruct s as [z|f]; simpl.
  - rewrite !Z.leb_le. lia.
  - apply leb_trans. exact Hff.
Qed.

(** A larger score reaches every threshold a smaller one reaches. *)
Lemma num_ge_mono s t k mk ek :
  exact_const k mk ek ->
  num_le s t = true -> num_ge s k = true -> num_ge t k = true.
Proof.
  intros Hk. destruct s as [x|f], t as [y|g]; simpl.
  - rewrite !Z.leb_le. lia.
  - intros Hle Hx. apply Z.leb_le in Hx. rewrite (leb_const _ _ _ _ Hk).
    eapply Z_compare_SF_le_mono; eauto.
  - intros Hle Hf. rewrite (leb_const _ _ _ _ Hk) in Hf. apply Z.leb_le.
    eapply Z_compare_SF_between; eauto.
  - intros Hle Hf. eapply leb_trans; eauto.
Qed.

(** *** Strings *)

Lemma prefix_empty b : String.prefix "" b = true.
Proof. destruct b; reflexivity. Qed.

Lemma prefix_lower a b :
  String.prefix a b = true -> String.prefix (lower a) (lower b) = true.
Proof.
  revert a. induction b as [|d b IH]; intros [|c a]; simpl; auto.
  destruct (ascii_dec c d) as [->|]; [|discriminate].
  intros H. destruct (ascii_dec (ascii_lower d) (ascii_lower d)); [auto|congruence].
Qed.

Lemma prefix_app a b c :
  String.prefix a b = true -> String.prefix a (b +:+ c) = true.
Proof.
  revert a. induction b as [|y b IH]; intros [|x a]; simpl;
    auto using prefix_empty; try discriminate.
  destruct (ascii_dec x y); [auto|discriminate].
Qed.

Lemma contains_unfold needle hay :
  contains needle hay =
  if String.prefix needle hay then true
  else match hay with
       | EmptyString => false
       | String _ hay' => contains needle hay'
       end.
Proof. destruct hay; reflexivity. Qed.

(** A lower-case word found in a string is found in its lower-case
    form. *)
Lemma contains_lower needle hay :
  lower needle = needle ->
  contains needle hay = true -> contains needle (lower hay) = true.
Proof.
  intros Hn. induction hay as [|c hay IH]; [simpl lower; auto|].
  rewrite contains_unfold.
  change (lower (String c hay)) with (String (ascii_lower c) (lower hay)).
  rewrite (contains_unfold _ (String _ _)).
  destruct (String.prefix needle (String c hay)) eqn:E.
  - intros _. apply prefix_lower in E. rewrite Hn in E.
    change (lower (String c hay)) with (String (ascii_lower c) (lower hay)) in E.
    rewrite E. reflexivity.
  - intros H.
    destruct (String.prefix needle (String (ascii_lower c) (lower hay)));
      [reflexivity | exact (IH H)].
Qed.

Lemma contains_app needle a b :
  contains needle a = true -> contains needle (a +:+ b) = true.
Proof.
  induction a as [|c a IH]; rewrite contains_unfold.
  - destruct (String.prefix needle "") eqn:E; [|discriminate].
    intros _. rewrite contains_unfold. apply (prefix_app _ _ b) in E.
    rewrite E. reflexivity.
  - change (String c a +:+ b) with (String c (a +:+ b)).
    rewrite (contains_unfold _ (String _ _)).
    destruct (String.prefix needle (String c a)) eqn:E.
    + intros _. apply (prefix_app _ _ b) in E.
      change (String c a +:+ b) with (String c (a +:+ b)) in E.
      rewrite E. reflexivity.
    + intros H.
      destruct (String.prefix needle (String c (a +:+ b))); [reflexivity | exact (IH H)].
Qed.

(** *** The stable sort *)
Section SortFacts.
Context {A : Type} (key : A -> Z).

Lemma insert_by_perm x l : insert_by key x l ≡ₚ x :: l.
Proof.
  induction l as [|y l IH]; [reflexivity|]. simpl.
  destruct (key x <=? key y); [reflexivity|].
  rewrite IH. apply Permutation_swap.
Qed.

Lemma sort_by_perm l : sort_by key l ≡ₚ l.
Proof.
  induction l as [|x l IH]; [reflexivity|]. simpl.
  rewrite insert_by_perm, IH. reflexivity.
Qed.

Definition key_le (a b : A) : Prop := key a <= key b.

Lemma insert_by_sorted x l :
  StronglySorted key_le l -> StronglySorted key_le (insert_by key x l).
Proof.
  induction 1 as [|y l Hs IH Hy]; simpl; [repeat constructor|].
  destruct (Z.leb_spec (key x) (key y)) as [Hxy|Hxy].
  - constructor; [constructor; assumption|].
    constructor; [exact Hxy|].
    eapply Forall_impl; [exact Hy|]. unfold key_le. intros; lia.
  - constructor; [exact IH|].
    rewrite insert_by_perm. constructor; [unfold key_le; lia | exact Hy].
Qed.

Lemma sort_by_sorted l : StronglySorted key_le (sort_by key l).
Proof.
  induction l as [|x l IH]; simpl; [constructor | apply insert_by_sorted, IH].
Qed.

(** Inserting an element does not move it past one it is to keep its
    place with: the elements a predicate selects stay in order, as long
    as all of them have the same key. *)
Lemma insert_by_filter (P : A -> Prop) `{!forall x, Decision (P x)} x l :
  (forall y, y ∈ l -> P x -> P y -> key x = key y) ->
  filter P (insert_by key x l) = filter P (x :: l).
Proof.
  induction l as [|y l IH]; intros Hkey; [reflexivity|]. simpl.
  destruct (Z.leb_spec (key x) (key y)) as [Hxy|Hxy]; [reflexivity|].
  rewrite (filter_cons _ y), IH by (intros; apply Hkey; [right|..]; assumption).
  rewrite !filter_cons.
  destruct (decide (P x)) as [Hx|Hx], (decide (P y)) as [Hy|Hy]; try reflexivity.
  specialize (Hkey y ltac:(left) Hx Hy). lia.
Qed.

Lemma sort_by_filter (P : A -> Prop) `{!forall x, Decision (P x)} l :
  (forall x y, x ∈ l -> y ∈ l -> P x -> P y -> key x = key y) ->
  filter P (sort_by key l) = filter P l.
Proof.
  induction l as [|x l IH]; intros Hkey; [reflexivity|]. simpl.
  rewrite insert_by_filter.
  - rewrite !filter_cons, IH; [reflexivity|].
    intros a b Ha Hb. apply Hkey; right; assumption.
  - intros y Hy. rewrite sort_by_perm in Hy. apply Hkey; [left | right; exact Hy].
Qed.

End SortFacts.

(** [mapM] over [result]: every call returned. *)
Lemma mapM_Ok {A B : Type} (f : A -> result B) l ks :
  mapM f l = Ok ks <-> Forall2 (fun x k => f x = Ok k) l ks.
Proof.
  revert ks. induction l as [|x l IH]; intros ks; simpl.
  - split; [intros [= <-]; constructor | inversion 1; reflexivity].
  - unfold mbind, result_bind at 1. destruct (f x) as [k|e] eqn:Ex.
    + destruct (mapM f l) as [ks'|e] eqn:El; simpl; unfold mret, result_ret.
      * split.
        -- intros [= <-]. constructor; [exact Ex | apply IH; reflexivity].
        -- inversion 1 as [|? ? ? ? Hk Hks]; subst.
           apply IH in Hks. congruence.
      * split; [discriminate|]. inversion 1 as [|? ? ? ? Hk Hks]; subst.
        apply IH in Hks. discriminate.
    + split; [discriminate|]. inversion 1; congruence.
Qed.

(** What [list_sort] returns: the elements, decorated with their keys,
    sorted by them. *)
Lemma list_sort_Ok {A : Type} (key : A -> result Z) l out :
  list_sort key l = Ok out ->
  exists ks, Forall2 (fun x k => key x = Ok k) l ks /\
             out = snd <$> sort_by fst (zip ks l).
Proof.
  unfold list_sort. destruct (mapM key l) as [ks|e] eqn:E; simpl; [|discriminate].
  intros [= <-]. exists ks. split; [apply mapM_Ok, E | reflexivity].
Qed.

Lemma filter_fmap {A B : Type} (f : A -> B) (P : B -> Prop)
    `{!forall y, Decision (P y)} (l : list A) :
  filter P (f <$> l) = f <$> filter (fun x => P (f x)) l.
Proof.
  induction l as [|x l IH]; [reflexivity|]. csimpl.
  rewrite !filter_cons, IH. destruct (decide (P (f x))); reflexivity.
Qed.

Lemma StronglySorted_and {A : Type} (R : relation A) (Q : A -> Prop) l :
  StronglySorted R l -> Forall Q l ->
  StronglySorted (fun a b => Q a /\ Q b /\ R a b) l.
Proof.
  induction 1 as [|x l Hs IH Hx]; intros HQ; [constructor|].
  apply Forall_cons in HQ as [Qx HQ]. constructor; [auto|].
  rewrite Forall_forall in *. auto.
Qed.

Lemma Forall2_zip_keys {A K : Type} (P : A -> K -> Prop) l ks :
  Forall2 P l ks -> Forall (fun p => P p.2 p.1) (zip ks l).
Proof. induction 1; simpl; constructor; auto. Qed.

Lemma mapM_returns {A B : Type} (f : A -> result B) l :
  Forall (fun x => exists k, f x = Ok k) l -> exists ks, mapM f l = Ok ks.
Proof.
  induction 1 as [|x l [k Hk] _ [ks IH]]; simpl; [eexists; reflexivity|].
  rewrite Hk. cbn [mbind result_bind]. rewrite IH. eexists; reflexivity.
Qed.

End PyFacts.

(** ** security_analyzer.py: the severity of a finding *)
Module SecurityFacts.
Import Py PyFacts Security.

Lemma exact_9 : exact_const 9 5066549580791808 (-49).
Proof. repeat split; try (vm_compute; congruence); try lia; reflexivity. Qed.

Lemma exact_7 : exact_const 7 7881299347898368 (-50).
Proof. repeat split; try (vm_compute; congruence); try lia; reflexivity. Qed.

Lemma exact_4 : exact_const 4 4503599627370496 (-50).
Proof. repeat split; try (vm_compute; congruence); try lia; reflexivity. Qed.

Lemma ge_9_ge_7 s : num_ge s 9 = true -> num_ge s 7 = true.
Proof. apply num_ge_antitone; [lia | reflexivity]. Qed.

Lemma ge_7_ge_4 s : num_ge s 7 = true -> num_ge s 4 = true.
Proof. apply num_ge_antitone; [lia | reflexivity]. Qed.

(** The rank [_process_vulnerabilities] sorts a severity by. *)
Lemma severity_order_classify s :
  severity_order !! classify s =
  Some (if num_ge s 9 then 0 else if num_ge s 7 then 1 else if num_ge s 4 then 2 else 3).
Proof.
  unfold classify.
  destruct (num_ge s 9), (num_ge s 7), (num_ge s 4); reflexivity.
Qed.

Lemma classify_cases s :
  classify s = "CRITICAL" \/ classify s = "HIGH" \/
  classify s = "MEDIUM" \/ classify s = "LOW".
Proof.
  unfold classify. destruct (num_ge s 9), (num_ge s 7), (num_ge s 4); auto.
Qed.

(** A finding whose CVSS score is the string ["nan"]. *)
Definition nan_finding : vulnerability :=
  {| v_id := Some "OSV-0"; v_summary := Some "malformed score"; v_details := None;
     v_database_specific := Some (PyDict [("cvss_score", PyStr "nan")]);
     v_affected := None; v_references := None;
     v_published := None; v_modified := None |}.

(** C1, as stated, fails: a score can be a NaN ([float("nan")] is a
    float), a NaN is in the bucket LOW, and it is not below 4. *)
Lemma classify_nan_low_not_below_4 :
  severity_score nan_finding "somepkg" = Ok (NFloat nan) /\
  _determine_severity nan_finding "somepkg" = Ok "LOW" /\
  ~ (classify (NFloat nan) = "LOW" <-> num_lt (NFloat nan) 4 = true).
Proof.
  split; [reflexivity|]. split; [reflexivity|].
  intros [H _]. specialize (H eq_refl). discriminate H.
Qed.

(** C1 (amended): the bucket [_determine_severity] returns is a
    function of the accumulated score [s] alone, [classify s]; it is
    CRITICAL iff [s >= 9], HIGH iff [7 <= s < 9], MEDIUM iff
    [4 <= s < 7], and LOW iff [s < 4] or [s] is a NaN (the [else] of the
    chain); and it is monotonic: if [s <= t], the bucket of [t] does not
    rank after the bucket of [s] in the order CRITICAL, HIGH, MEDIUM,
    LOW. *)
Theorem classify_step_function (s : pynum) :
  (forall v name sev,
     _determine_severity v name = Ok sev <->
     exists s', severity_score v name = Ok s' /\ classify s' = sev) /\
  (classify s = "CRITICAL" <-> num_ge s 9 = true) /\
  (classify s = "HIGH" <-> num_ge s 7 = true /\ num_lt s 9 = true) /\
  (classify s = "MEDIUM" <-> num_ge s 4 = true /\ num_lt s 7 = true) /\
  (classify s = "LOW" <-> num_lt s 4 = true \/ num_is_nan s = true) /\
  (forall t a b,
     num_le s t = true ->
     severity_order !! classify s = Some a ->
     severity_order !! classify t = Some b ->
     b <= a).
Proof.
  split.
  { intros v name sev. unfold _determine_severity.
    destruct (severity_score v name) as [s'|e]; simpl.
    - split; [intros [= <-]; eauto | intros (? & [= <-] & <-); reflexivity].
    - split; [discriminate | intros (? & ? & _); discriminate]. }
  pose proof (ge_9_ge_7 s) as H97. pose proof (ge_7_ge_4 s) as H74.
  split; [|split; [|split; [|split]]].
  1-4: unfold classify;
    destruct (num_trichotomy s 9 _ _ exact_9) as [(G9&L9&N9)|[(G9&L9&N9)|(G9&L9&N9)]];
    destruct (num_trichotomy s 7 _ _ exact_7) as [(G7&L7&N7)|[(G7&L7&N7)|(G7&L7&N7)]];
    destruct (num_trichotomy s 4 _ _ exact_4) as [(G4&L4&N4)|[(G4&L4&N4)|(G4&L4&N4)]];
    rewrite ?G9, ?G7, ?G4, ?L9, ?L7, ?L4 in *; intuition congruence.
  intros t a b Hle. rewrite !severity_order_classify. intros [= <-] [= <-].
  pose proof (num_ge_mono s t 9 _ _ exact_9 Hle) as M9.
  pose proof (num_ge_mono s t 7 _ _ exact_7 Hle) as M7.
  pose proof (num_ge_mono s t 4 _ _ exact_4 Hle) as M4.
  pose proof (ge_9_ge_7 t) as T97. pose proof (ge_7_ge_4 t) as T74.
  destruct (num_ge s 9), (num_ge s 7), (num_ge s 4),
    (num_ge t 9), (num_ge t 7), (num_ge t 4);
    first [lia | intuition congruence].
Qed.

(** *** The worked example of the scorer *)

Lemma description_contains_summary (v : vulnerability) summary keyword :
  v_summary v = Some summary -> lower keyword = keyword ->
  contains keyword summary = true -> contains keyword (description v) = true.
Proof.
  intros Hs Hk Hc. unfold description. rewrite Hs. simpl default.
  apply contains_app, contains_lower; assumption.
Qed.

Lemma add_affected_none (v : vulnerability) score :
  Forall (fun entry => affects_security entry = false) (default [] (v_affected v)) ->
  add_affected v score = score.
Proof.
  unfold add_affected. generalize (default [] (v_affected v)) as l.
  intros l H. revert score. induction H as [|e l He _ IH]; intros score; [reflexivity|].
  cbn [fold_left]. rewrite He. apply IH.
Qed.

Lemma add_vulnerability_type_none desc score :
  Forall (fun kw => contains kw desc = false) vulnerability_types ->
  add_vulnerability_type desc score = score.
Proof.
  unfold add_vulnerability_type. intros H.
  replace (existsb (fun kw => contains kw desc) vulnerability_types) with false;
    [reflexivity|].
  symmetry. induction H as [|kw l Hkw _ IH]; [reflexivity|].
  cbn [existsb]. rewrite Hkw. exact IH.
Qed.

Lemma fold_keywords_none desc (l : list string) score :
  Forall (fun kw => contains kw desc = false) l ->
  fold_left (fun s keyword => if contains keyword desc then num_add s (NInt 2) else s)
    l score = score.
Proof.
  intros H. revert score. induction H as [|kw l Hkw _ IH]; intros score; [reflexivity|].
  cbn [fold_left]. rewrite Hkw. apply IH.
Qed.

(** [critical_keywords] is a set in the source, iterated in no fixed
    order: the order does not matter, every match adds the same 2. *)
Lemma add_keywords_order desc (l l' : list string) :
  l ≡ₚ l' ->
  forall score,
    fold_left (fun s keyword => if contains keyword desc then num_add s (NInt 2) else s)
      l score =
    fold_left (fun s keyword => if contains keyword desc then num_add s (NInt 2) else s)
      l' score.
Proof.
  induction 1 as [|x l l' _ IH|x y l|l l' l'' _ IH1 _ IH2]; intros score; simpl.
  - reflexivity.
  - apply IH.
  - destruct (contains x desc), (contains y desc); reflexivity.
  - rewrite IH1. apply IH2.
Qed.

(** The one keyword "remote code execution" adds 2, once. *)
Lemma add_keywords_rce_only desc score :
  contains "remote code execution" desc = true ->
  Forall (fun kw => kw = "remote code execution" \/ contains kw desc = false)
    critical_keywords ->
  add_keywords desc score = num_add score (NInt 2).
Proof.
  intros Hrce Hkw. unfold add_keywords, critical_keywords in *.
  apply Forall_cons in Hkw as [_ Hkw].
  match goal with
  | |- fold_left ?f (?kw :: ?l) ?s = _ => change (fold_left f l (f s kw) = num_add s (NInt 2))
  end.
  cbv beta. rewrite Hrce.
  apply fold_keywords_none.
  repeat match goal with
    | H : Forall _ (_ :: _) |- _ =>
        apply Forall_cons in H as [[?|?] H]; [congruence|]
    end.
  repeat (apply Forall_cons; split; [assumption|]). constructor.
Qed.

(** C6: with CVSS score ["9.8"], a summary that contains "remote code
    execution", the package [cryptography] and no other signal (no other
    keyword, none of the three vulnerability-type words, no
    [affects_security] flag), the score is [9.8 + 2 + 1 = 12.8] and the
    severity is CRITICAL. *)
Theorem cvss_9_8_rce_cryptography_critical
    (v : vulnerability) (database_specific : pydict) (summary : string) :
  v_database_specific v = Some (PyDict database_specific) ->
  dict_get database_specific "cvss_score" = Some (PyStr "9.8") ->
  v_summary v = Some summary ->
  contains "remote code execution" summary = true ->
  Forall (fun kw => kw = "remote code execution" \/ contains kw (description v) = false)
    critical_keywords ->
  Forall (fun kw => contains kw (description v) = false) vulnerability_types ->
  Forall (fun entry => affects_security entry = false) (default [] (v_affected v)) ->
  severity_score v "cryptography" = Ok (NFloat 12.8) /\
  _determine_severity v "cryptography" = Ok "CRITICAL".
Proof.
  intros Hdb Hcvss Hsum Hrce Hkw Hty Haff.
  assert (Hscore : severity_score v "cryptography" = Ok (NFloat 12.8)).
  { unfold severity_score, add_cvss. rewrite Hdb. simpl default. cbv beta iota.
    rewrite Hcvss. change (truthy (PyStr "9.8")) with true. cbv iota.
    replace (py_float (PyStr "9.8")) with (Ok 9.8%float) by (vm_compute; reflexivity).
    cbn [mbind result_bind].
    rewrite add_affected_none by assumption.
    rewrite add_vulnerability_type_none by assumption.
    rewrite add_keywords_rce_only
      by eauto using description_contains_summary.
    vm_compute. reflexivity. }
  split; [exact Hscore|].
  unfold _determine_severity. rewrite Hscore. reflexivity.
Qed.

(** A finding of that kind. *)
Definition rce_finding : vulnerability :=
  {| v_id := Some "GHSA-0000"; v_summary := Some "A remote code execution flaw";
     v_details := Some "in the parser";
     v_database_specific := Some (PyDict [("cvss_score", PyStr "9.8")]);
     v_affected := None; v_references := None;
     v_published := None; v_modified := None |}.

Lemma cvss_9_8_rce_cryptography_critical_witness :
  severity_score rce_finding "cryptography" = Ok (NFloat 12.8) /\
  _determine_severity rce_finding "cryptography" = Ok "CRITICAL".
Proof.
  apply (cvss_9_8_rce_cryptography_critical rce_finding
           [("cvss_score", PyStr "9.8")] "A remote code execution flaw").
  - reflexivity.
  - reflexivity.
  - reflexivity.
  - reflexivity.
  - repeat (apply Forall_cons; split; [first [left; reflexivity | right; reflexivity]|]).
    apply Forall_nil. exact I.
  - repeat (apply Forall_cons; split; [reflexivity|]). apply Forall_nil. exact I.
  - apply Forall_nil. exact I.
Defined.

(** *** The report *)

Lemma total_insert (d : gmap string Z) k n :
  d !! k = None -> total (<[k := n]> d) = n + total d.
Proof.
  intros H. unfold total. rewrite map_fold_insert_L; [reflexivity| |exact H].
  intros; lia.
Qed.

Lemma total_update (d : gmap string Z) k n m :
  d !! k = Some n -> total (<[k := m]> d) = total d + (m - n).
Proof.
  intros H.
  assert (Hm : total (<[k := m]> d) = m + total (delete k d)).
  { rewrite <- insert_delete_eq. apply total_insert, lookup_delete_eq. }
  assert (Hn : total d = n + total (delete k d)).
  { rewrite <- (insert_delete_id d k n H) at 1. apply total_insert, lookup_delete_eq. }
  lia.
Qed.

Lemma increment_Ok k (d d' : gmap string Z) :
  increment k d = Ok d' -> dom d' = dom d /\ total d' = total d + 1.
Proof.
  unfold increment. destruct (d !! k) as [n|] eqn:E; [|discriminate].
  intros [= <-]. split.
  - apply dom_insert_lookup_L. eauto.
  - rewrite (total_update d k n) by exact E. lia.
Qed.

Lemma increment_in_dom k (d : gmap string Z) :
  k ∈ dom d -> exists d', increment k d = Ok d'.
Proof.
  intros [n Hn]%elem_of_dom. unfold increment. rewrite Hn. eauto.
Qed.

Lemma process_one_Ok name acc vuln acc' :
  process_one name acc vuln = Ok acc' ->
  exists info,
    entry_of name vuln info /\ acc'.2 = (acc.2 ++ [info])%list /\
    dom acc'.1 = dom acc.1 /\ total acc'.1 = total acc.1 + 1.
Proof.
  unfold process_one, entry_of.
  destruct (_determine_severity vuln name) as [sev|e] eqn:Es; [|discriminate].
  cbn [mbind result_bind].
  destruct (increment sev acc.1) as [counts|e] eqn:Ec; [|discriminate].
  destruct (vuln_info_of vuln sev) as [info|e] eqn:Ei; [|discriminate].
  intros [= <-]. apply increment_Ok in Ec as [Hdom Htot].
  exists info. simpl. eauto 10.
Qed.

Lemma process_loop_Ok name vulns : forall acc acc',
  process_loop name acc vulns = Ok acc' ->
  exists infos,
    Forall2 (entry_of name) vulns infos /\ acc'.2 = (acc.2 ++ infos)%list /\
    dom acc'.1 = dom acc.1 /\ total acc'.1 = total acc.1 + Z.of_nat (length vulns).
Proof.
  induction vulns as [|vuln rest IH]; intros acc acc'; simpl.
  - intros [= <-]. exists []. rewrite app_nil_r. repeat split; [constructor | lia].
  - destruct (process_one name acc vuln) as [acc1|e] eqn:E1; [|discriminate].
    cbn [mbind result_bind]. intros Hrest.
    apply process_one_Ok in E1 as (info & Hinfo & Hl & Hdom & Htot).
    apply IH in Hrest as (infos & Hinfos & Hl' & Hdom' & Htot').
    exists (info :: infos). split; [constructor; assumption|].
    rewrite Hl', Hl, <- app_assoc, Hdom', Hdom, Htot', Htot.
    repeat split. lia.
Qed.

Lemma dom_initial_counts :
  dom initial_counts = ({[ "CRITICAL"; "HIGH"; "MEDIUM"; "LOW" ]} : gset string).
Proof. unfold initial_counts. rewrite !dom_insert_L, dom_singleton_L. set_solver. Qed.

Lemma total_initial_counts : total initial_counts = 0.
Proof. reflexivity. Qed.

(** A finding with a summary and an ["affected"] list, nothing else. *)
Definition bare (affected : option (list affected_entry)) (summary : string) : vulnerability :=
  {| v_id := None; v_summary := Some summary; v_details := None;
     v_database_specific := None; v_affected := affected; v_references := None;
     v_published := None; v_modified := None |}.

(** C3: the report's [severity_counts] has exactly the four keys, its
    values sum to [total_vulnerabilities], and that is the length of the
    input list. *)
Theorem severity_counts_sum vulns name version r :
  _process_vulnerabilities vulns name version = Ok r ->
  dom (severity_counts r) = ({[ "CRITICAL"; "HIGH"; "MEDIUM"; "LOW" ]} : gset string) /\
  total (severity_counts r) = total_vulnerabilities r /\
  total_vulnerabilities r = Z.of_nat (length vulns).
Proof.
  unfold _process_vulnerabilities.
  destruct (process_loop name (initial_counts, []) vulns) as [acc|e] eqn:E; [|discriminate].
  cbn [mbind result_bind].
  destruct (list_sort sort_key acc.2) as [sorted|e]; [|discriminate].
  intros [= <-]. simpl.
  apply process_loop_Ok in E as (infos & _ & _ & Hdom & Htot). simpl in Hdom, Htot.
  rewrite Hdom, Htot, dom_initial_counts, total_initial_counts.
  repeat split; lia.
Qed.

Lemma severity_counts_sum_witness :
  dom (<[ "LOW" := 2 ]> (<[ "CRITICAL" := 1 ]> initial_counts)) =
    ({[ "CRITICAL"; "HIGH"; "MEDIUM"; "LOW" ]} : gset string) /\
  total (<[ "LOW" := 2 ]> (<[ "CRITICAL" := 1 ]> initial_counts)) = 3 /\
  3 = Z.of_nat (length [bare None "typo"; rce_finding; nan_finding]).
Proof.
  exact (severity_counts_sum [bare None "typo"; rce_finding; nan_finding]
           "cryptography" None _ eq_refl).
Defined.

(** The severity of an entry is one the order knows. *)
Lemma entry_of_sort_key name vuln info :
  entry_of name vuln info ->
  exists k, sort_key info = Ok k /\ severity_order !! i_severity info = Some k.
Proof.
  intros (sev & Hsev & Hinfo). unfold _determine_severity in Hsev.
  destruct (severity_score vuln name) as [s|e]; [|discriminate].
  injection Hsev as <-. unfold vuln_info_of in Hinfo.
  destruct (first_ecosystem_specific vuln); [|discriminate].
  injection Hinfo as <-. unfold sort_key. cbn [i_severity].
  rewrite severity_order_classify. eauto.
Qed.

Lemma sort_key_Some info k :
  sort_key info = Ok k <-> severity_order !! i_severity info = Some k.
Proof.
  unfold sort_key. destruct (severity_order !! i_severity info); split; congruence.
Qed.

(** C2: the report lists the entries of the findings, one per finding;
    the list is sorted by severity rank (CRITICAL, HIGH, MEDIUM, LOW),
    and the entries of one severity are in the order of the input. *)
Theorem report_sorted_stable vulns name version r :
  _process_vulnerabilities vulns name version = Ok r ->
  exists infos,
    Forall2 (entry_of name) vulns infos /\
    vulnerabilities r ≡ₚ infos /\
    StronglySorted rank_le (vulnerabilities r) /\
    forall severity,
      filter (fun info => i_severity info = severity) (vulnerabilities r) =
      filter (fun info => i_severity info = severity) infos.
Proof.
  unfold _process_vulnerabilities.
  destruct (process_loop name (initial_counts, []) vulns) as [acc|e] eqn:E; [|discriminate].
  cbn [mbind result_bind].
  destruct (list_sort sort_key acc.2) as [sorted|e] eqn:Es; [|discriminate].
  intros [= <-]. cbn [vulnerabilities].
  apply process_loop_Ok in E as (infos & Hinfos & Hl & _). simpl in Hl. subst infos.
  apply list_sort_Ok in Es as (ks & Hks & ->).
  assert (Hsnd : (zip ks acc.2).*2 = acc.2)
    by (apply snd_zip; apply Forall2_length in Hks; lia).
  assert (Hvalid : Forall (fun p => sort_key p.2 = Ok p.1) (zip ks acc.2))
    by exact (Forall2_zip_keys (fun x k => sort_key x = Ok k) _ _ Hks).
  exists acc.2. split; [exact Hinfos|]. split; [|split].
  - rewrite sort_by_perm, Hsnd. reflexivity.
  - eapply StronglySorted_fmap; [|apply StronglySorted_and;
      [apply sort_by_sorted | rewrite sort_by_perm; exact Hvalid]].
    intros p q (Hp & Hq & Hpq). exists p.1, q.1.
    apply sort_key_Some in Hp, Hq. auto.
  - intros severity.
    transitivity (filter (fun info => i_severity info = severity) (zip ks acc.2).*2);
      [|rewrite Hsnd; reflexivity].
    rewrite !filter_fmap. f_equal. apply sort_by_filter.
    intros p q Hp Hq Sp Sq. rewrite Forall_forall in Hvalid.
    apply Hvalid, sort_key_Some in Hp, Hq. congruence.
Qed.

(** Three findings and their report. *)
Definition sample_findings : list vulnerability :=
  [bare None "typo in a message"; rce_finding; nan_finding].

Definition sample_report : report :=
  Eval vm_compute in
    match _process_vulnerabilities sample_findings "cryptography" None with
    | Ok r => r
    | Raise _ =>
        {| total_vulnerabilities := 0; severity_counts := ∅; vulnerabilities := [] |}
    end.

Lemma report_sorted_stable_witness :
  exists infos,
    Forall2 (entry_of "cryptography") sample_findings infos /\
    vulnerabilities sample_report ≡ₚ infos /\
    StronglySorted rank_le (vulnerabilities sample_report) /\
    forall severity,
      filter (fun info => i_severity info = severity) (vulnerabilities sample_report) =
      filter (fun info => i_severity info = severity) infos.
Proof.
  exact (report_sorted_stable sample_findings "cryptography" None sample_report eq_refl).
Defined.

(** The report is there whenever every score is (no [int] too large
    for [float()]) and no finding has an empty ["affected"] list: the
    two lookups by severity never miss. *)
Lemma process_loop_returns name vulns : forall acc,
  dom acc.1 = ({[ "CRITICAL"; "HIGH"; "MEDIUM"; "LOW" ]} : gset string) ->
  Forall (fun v => (exists s, severity_score v name = Ok s) /\ v_affected v <> Some [])
    vulns ->
  exists acc', process_loop name acc vulns = Ok acc'.
Proof.
  induction vulns as [|v rest IH]; intros acc Hdom Hv; simpl; [eauto|].
  apply Forall_cons in Hv as [[[s Hs] Ha] Hrest].
  unfold process_one, _determine_severity. rewrite Hs. cbn [mbind result_bind].
  destruct (increment_in_dom (classify s) acc.1) as [counts Hc].
  { rewrite Hdom. destruct (classify_cases s) as [-> | [-> | [-> | ->]]]; set_solver. }
  rewrite Hc. cbn [mbind result_bind].
  unfold vuln_info_of, first_ecosystem_specific.
  destruct (v_affected v) as [[|entry entries]|]; [congruence| |];
    cbn [mbind result_bind]; apply IH; auto; simpl;
    apply increment_Ok in Hc as [-> _]; exact Hdom.
Qed.

Lemma process_vulnerabilities_returns vulns name version :
  Forall (fun v => (exists s, severity_score v name = Ok s) /\ v_affected v <> Some [])
    vulns ->
  exists r, _process_vulnerabilities vulns name version = Ok r.
Proof.
  intros Hv. unfold _process_vulnerabilities.
  destruct (process_loop_returns name vulns (initial_counts, [])
              dom_initial_counts Hv) as [acc Hacc].
  rewrite Hacc. cbn [mbind result_bind].
  apply process_loop_Ok in Hacc as (infos & Hinfos & Hl & _). simpl in Hl. subst infos.
  destruct (mapM_returns sort_key acc.2) as [ks Hks].
  { clear -Hinfos. induction Hinfos as [|v i vs infos Hi _ IH]; constructor; [|exact IH].
    apply entry_of_sort_key in Hi as (k & Hk & _). eauto. }
  unfold list_sort. rewrite Hks. cbn [mbind result_bind]. eauto.
Qed.

(** An empty ["affected"] list is the input with no report. *)
Lemma empty_affected_raises :
  _process_vulnerabilities [bare (Some []) "typo"] "cryptography" None = Raise IndexError.
Proof. reflexivity. Qed.

End SecurityFacts.

(** ** issue_tracker.py: a package with no repository *)
Module IssuesFacts.
Import Py Issues.

Lemma search_github_repo_undefined : "_search_github_repo" ∉ IssueTracker_methods.
Proof.
  unfold IssueTracker_methods. rewrite !not_elem_of_cons.
  repeat split; [discriminate..|apply not_elem_of_nil].
Qed.

(** When the registry names no repository, [analyze_issues] reaches
    line 23 and raises there, after its one request. *)
Lemma analyze_issues_no_repo (w : world) name l :
  (_get_repo_from_pypi w name l).1 = None ->
  analyze_issues w name l = (Raise AttributeError, (l ++ [pypi_url name])%list).
Proof.
  unfold analyze_issues, analyze_issues_with.
  assert (Hl : (_get_repo_from_pypi w name l).2 = (l ++ [pypi_url name])%list)
    by (unfold _get_repo_from_pypi; destruct (pypi w name); reflexivity).
  destruct (_get_repo_from_pypi w name l) as [repo l']. simpl in *.
  intros ->. rewrite Hl. reflexivity.
Qed.

(** Had the class a fallback search, a search that finds nothing would
    give the error record, with no request after the search's own. *)
Lemma analyze_issues_with_failing_search (f : search) (w : world) name l l1 l2 :
  _get_repo_from_pypi w name l = (None, l1) ->
  f w name l1 = (None, l2) ->
  analyze_issues_with (Some f) w name l =
  (Ok (Error ("Could not find GitHub repository for " +:+ name)), l2).
Proof.
  intros H1 H2. unfold analyze_issues_with. rewrite H1, H2. reflexivity.
Qed.

(** A registry whose one package declares only a documentation URL. *)
Definition docs_only : world :=
  {| pypi := fun name =>
       if String.eqb name "leftpad"
       then Some {| project_urls := Some [("Documentation", PyStr "https://leftpad.readthedocs.io/")] |}
       else None;
     stats_of := fun _ => {| open_issues := 0; pull_requests := 0 |};
     recent_of := fun _ => [];
     top_of := fun _ => [] |}.

(** C4 fails on the code: for such a package [analyze_issues] raises
    [AttributeError] instead of returning the error record. *)
Theorem analyze_issues_raises_without_repo :
  (_get_repo_from_pypi docs_only "leftpad" []).1 = None /\
  analyze_issues docs_only "leftpad" [] =
  (Raise AttributeError, ["https://pypi.org/pypi/leftpad/json"]).
Proof. split; reflexivity. Qed.

End IssuesFacts.

(** ** scraper.py: missing markup, and the version argument *)
Module ScraperFacts.
Import Py Scraper.

Lemma installation_fallback_not_empty : installation_fallback <> "".
Proof. discriminate. Qed.

Lemma omap_all_None {A B : Type} (f : A -> option B) l :
  Forall (fun x => f x = None) l -> omap f l = [].
Proof. induction 1 as [|x l Hx _ IH]; simpl; [|rewrite Hx]; auto. Qed.

(** Release cards without a version paragraph give no release. *)
Lemma latest_releases_none soup :
  Forall (fun card => find "p" (Some "release__version") (children_of card) = None)
    (find_all "a" (Some "release__card") soup) ->
  _extract_latest_releases soup = [].
Proof.
  intros H. unfold _extract_latest_releases. apply omap_all_None.
  apply Forall_take with (n := 5%nat) in H.
  eapply Forall_impl; [exact H|]. cbv beta. intros card ->. reflexivity.
Qed.

(** A registry whose every project page is empty. *)
Definition empty_pages : world :=
  {| api := fun _ => None; page := fun _ => Some [] |}.

(** C5, as stated, fails: on a page without the instruction element
    the installation snippet is the fallback text, not the empty
    string. *)
Lemma missing_snippet_is_not_empty :
  find "span" (Some "package-header__pip-instructions") [] = None /\
  (_scrape_pypi_page empty_pages "leftpad" None []).1 =
    Ok {| installation_guide := "pip install {package_name}";
          latest_releases := [];
          project_stats := ∅;
          community := {| maintainers := [] |} |} /\
  "pip install {package_name}" <> "".
Proof. split; [reflexivity|]. split; [reflexivity|discriminate]. Qed.

(** C5 (amended): when the project page is fetched the scrape
    succeeds, whatever markup is missing; without the instruction
    element the installation snippet is the fixed fallback text, which is
    not empty; without release cards (or with cards that carry no
    version) the releases are the empty list; without the stats panel
    the project stats are the empty mapping; without the maintainers
    block the maintainers are the empty list. *)
Theorem scrape_degrades (w : world) name version l soup :
  page w (page_url name version) = Some soup ->
  exists d,
    _scrape_pypi_page w name version l = (Ok d, (l ++ [page_url name version])%list) /\
    (find "span" (Some "package-header__pip-instructions") soup = None ->
     installation_guide d = installation_fallback /\ installation_fallback <> "") /\
    (Forall (fun card => find "p" (Some "release__version") (children_of card) = None)
       (find_all "a" (Some "release__card") soup) ->
     latest_releases d = []) /\
    (find "div" (Some "package-header__stats") soup = None -> project_stats d = ∅) /\
    (find "div" (Some "maintainers") soup = None -> maintainers (community d) = []).
Proof.
  intros Hpage. unfold _scrape_pypi_page. rewrite Hpage.
  eexists. split; [reflexivity|]. cbn [installation_guide latest_releases project_stats community].
  repeat split.
  - unfold _extract_installation_guide. rewrite H. reflexivity.
  - apply installation_fallback_not_empty.
  - apply latest_releases_none.
  - intros H. unfold _extract_project_stats. rewrite H. reflexivity.
  - intros H. unfold _extract_community_info. rewrite H. reflexivity.
Qed.

Lemma scrape_degrades_witness :
  exists d,
    _scrape_pypi_page empty_pages "leftpad" (Some "1.0") [] =
      (Ok d, ([] ++ [page_url "leftpad" (Some "1.0")])%list) /\
    (find "span" (Some "package-header__pip-instructions") [] = None ->
     installation_guide d = installation_fallback /\ installation_fallback <> "") /\
    (Forall (fun card => find "p" (Some "release__version") (children_of card) = None)
       (find_all "a" (Some "release__card") []) ->
     latest_releases d = []) /\
    (find "div" (Some "package-header__stats") [] = None -> project_stats d = ∅) /\
    (find "div" (Some "maintainers") [] = None -> maintainers (community d) = []).
Proof.
  exact (scrape_degrades empty_pages "leftpad" (Some "1.0") [] [] eq_refl).
Defined.

(** C10: the version argument does not reach the API request nor the
    dependency list.  With and without it the same URL is requested,
    the unversioned one; the dependencies are read off the record's
    [requires_dist] alone; and the two results differ at most in the
    [version] field.  It does select the project page. *)
Theorem version_ignored_by_api (w : world) name version l :
  (_fetch_api_data w name version l).2 = (l ++ [api_url name])%list /\
  (_fetch_api_data w name version l).2 = (_fetch_api_data w name None l).2 /\
  (forall data, _extract_dependencies data version = _extract_dependencies data None) /\
  (forall data data',
     requires_dist (info data) = requires_dist (info data') ->
     _extract_dependencies data version = _extract_dependencies data' None) /\
  match (_fetch_api_data w name version l).1, (_fetch_api_data w name None l).1 with
  | Ok r, Ok r0 =>
      r_dependencies r = r_dependencies r0 /\
      r = {| r_name := r_name r0; r_version := r_version r; r_author := r_author r0;
             r_license := r_license r0; r_description := r_description r0;
             r_homepage := r_homepage r0; r_documentation := r_documentation r0;
             r_requires_python := r_requires_python r0;
             r_dependencies := r_dependencies r0 |} /\
      r_version r = default (r_version r0) (given version)
  | Raise e, Raise e0 => e = e0
  | _, _ => False
  end /\
  page_url name version =
    match given version with
    | Some v => page_url name None +:+ "/" +:+ v
    | None => page_url name None
    end.
Proof.
  unfold _fetch_api_data.
  split; [destruct (api w name); reflexivity|].
  split; [destruct (api w name); reflexivity|].
  assert (Hdeps : forall data data',
            requires_dist (info data) = requires_dist (info data') ->
            _extract_dependencies data version = _extract_dependencies data' None).
  { intros data data' H. unfold _extract_dependencies. rewrite H. reflexivity. }
  split; [intros data; apply Hdeps; reflexivity|].
  split; [exact Hdeps|].
  split; [|unfold page_url; destruct (given version); reflexivity].
  destruct (api w name) as [data|]; [|reflexivity].
  cbn [fst r_dependencies r_name r_version r_author r_license r_description
       r_homepage r_documentation r_requires_python].
  rewrite (Hdeps data data eq_refl). auto.
Qed.

End ScraperFacts.

(** ** visualizer.py: the bounded, cycle-guarded expansion *)
Module VisualizerFacts.
Import Py Visualizer.

Section Facts.
Context (fetch : registry) (max_depth : Z).

Lemma add_dependencies_S fuel pkg d st :
  add_dependencies fetch max_depth (S fuel) pkg d st =
  if (max_depth <=? d) || bool_decide (pkg ∈ visited st) then Some st
  else match fetch pkg with
       | None => Some (add_stmt (Node pkg pkg (Some "lightgray")) (visit pkg d st))
       | Some data =>
           each_dep (add_dependencies fetch max_depth fuel) pkg d
             (default [] (requires_dist data))
             (add_stmt (Node pkg (node_label pkg data) None) (visit pkg d st))
       end.
Proof. reflexivity. Qed.

(** *** Termination *)

Lemma each_dep_returns recurse pkg d deps :
  (forall p st, is_Some (recurse p (d + 1) st)) ->
  forall st, is_Some (each_dep recurse pkg d deps st).
Proof.
  intros Hrec. induction deps as [|dep deps IH]; intros st; simpl; [eauto|].
  destruct (String.eqb dep "" || String.eqb (dep_name_of dep) ""); [apply IH|].
  destruct (bool_decide _); [apply IH|].
  destruct (Hrec (dep_name_of dep) (add_stmt (Edge pkg (dep_name_of dep)) st)) as [st' ->].
  apply IH.
Qed.

(** One unit of fuel for each level below [max_depth], and one more,
    is enough. *)
Lemma add_dependencies_returns fuel : forall pkg d st,
  (Z.to_nat (max_depth - d) < fuel)%nat ->
  is_Some (add_dependencies fetch max_depth fuel pkg d st).
Proof.
  induction fuel as [|fuel IH]; intros pkg d st Hfuel; [lia|].
  rewrite add_dependencies_S.
  destruct (Z.leb_spec max_depth d); simpl; [eauto|].
  destruct (bool_decide _); [eauto|].
  destruct (fetch pkg) as [data|]; [|eauto].
  apply each_dep_returns. intros p st'. apply IH. lia.
Qed.

Lemma each_dep_ext recurse recurse' pkg d deps :
  (forall p st st', recurse p (d + 1) st = Some st' -> recurse' p (d + 1) st = Some st') ->
  forall st st',
    each_dep recurse pkg d deps st = Some st' ->
    each_dep recurse' pkg d deps st = Some st'.
Proof.
  intros Hrec. induction deps as [|dep deps IH]; intros st st'; simpl; [auto|].
  destruct (String.eqb dep "" || String.eqb (dep_name_of dep) ""); [apply IH|].
  destruct (bool_decide _); [apply IH|].
  destruct (recurse _ _ _) as [st1|] eqn:E; [|discriminate].
  rewrite (Hrec _ _ _ E). apply IH.
Qed.

(** More fuel does not change a result. *)
Lemma add_dependencies_fuel fuel : forall fuel' pkg d st st',
  (fuel <= fuel')%nat ->
  add_dependencies fetch max_depth fuel pkg d st = Some st' ->
  add_dependencies fetch max_depth fuel' pkg d st = Some st'.
Proof.
  induction fuel as [|fuel IH]; intros fuel' pkg d st st' Hle; [discriminate|].
  destruct fuel' as [|fuel']; [lia|].
  rewrite !add_dependencies_S.
  destruct (_ || _); [auto|]. destruct (fetch pkg) as [data|]; [|auto].
  apply each_dep_ext. intros p s s'. apply IH. lia.
Qed.

(** *** Invariants of the state *)
Section Invariant.
Context (I : state -> Prop).
Context (I_fail : forall st pkg d,
  I st -> 0 <= d < max_depth -> pkg ∉ visited st -> fetch pkg = None ->
  I (add_stmt (Node pkg pkg (Some "lightgray")) (visit pkg d st))).
Context (I_node : forall st pkg d data,
  I st -> 0 <= d < max_depth -> pkg ∉ visited st -> fetch pkg = Some data ->
  I (add_stmt (Node pkg (node_label pkg data) None) (visit pkg d st))).
Context (I_edge : forall st pkg d data dep,
  I st -> 0 <= d < max_depth -> fetch pkg = Some data ->
  I (add_stmt (Edge pkg dep) st)).

Lemma each_dep_invariant recurse pkg d data deps :
  0 <= d < max_depth -> fetch pkg = Some data ->
  (forall p st st', I st -> recurse p (d + 1) st = Some st' -> I st') ->
  forall st st', I st -> each_dep recurse pkg d deps st = Some st' -> I st'.
Proof.
  intros Hd Hdata Hrec. induction deps as [|dep deps IH]; intros st st' Hst; simpl.
  - intros [= <-]. exact Hst.
  - destruct (String.eqb dep "" || String.eqb (dep_name_of dep) ""); [apply IH, Hst|].
    pose proof (I_edge st pkg d data (dep_name_of dep) Hst Hd Hdata) as Hst1.
    destruct (bool_decide _); [apply IH, Hst1|].
    destruct (recurse _ _ _) as [st2|] eqn:E; [|discriminate].
    apply IH. eapply Hrec; eauto.
Qed.

Lemma add_dependencies_invariant fuel : forall pkg d st st',
  0 <= d -> I st ->
  add_dependencies fetch max_depth fuel pkg d st = Some st' -> I st'.
Proof.
  induction fuel as [|fuel IH]; intros pkg d st st' Hd Hst; [discriminate|].
  rewrite add_dependencies_S.
  destruct (Z.leb_spec max_depth d); simpl; [intros [= <-]; exact Hst|].
  destruct (bool_decide_reflect (pkg ∈ visited st)) as [|Hnew]; [intros [= <-]; exact Hst|].
  destruct (fetch pkg) as [data|] eqn:Hf.
  - apply (each_dep_invariant _ pkg d data); [lia|exact Hf| |apply I_node; [exact Hst|lia|exact Hnew|exact Hf]].
    intros p s s' Hs. apply IH; [lia|exact Hs].
  - intros [= <-]. apply I_fail; [exact Hst|lia|exact Hnew|exact Hf].
Qed.

End Invariant.

(** The graph only grows. *)
Lemma dot_grows fuel pkg d st st' :
  0 <= d ->
  add_dependencies fetch max_depth fuel pkg d st = Some st' ->
  forall x, x ∈ dot st -> x ∈ dot st'.
Proof.
  intros Hd Hrun.
  apply (add_dependencies_invariant (fun s => forall x, x ∈ dot st -> x ∈ dot s))
    with (fuel := fuel) (pkg := pkg) (d := d) (st := st);
    [ intros s p k Hs _ _ _ x Hx; simpl; apply elem_of_app; left; apply Hs, Hx
    | intros s p k data Hs _ _ _ x Hx; simpl; apply elem_of_app; left; apply Hs, Hx
    | intros s p k data dep Hs _ _ x Hx; simpl; apply elem_of_app; left; apply Hs, Hx
    | exact Hd | auto | exact Hrun ].
Qed.

Lemma reach_grows g g' root p d :
  (forall x, x ∈ g -> x ∈ g') -> reach g root p d -> reach g' root p d.
Proof. intros Hg. induction 1; econstructor; eauto. Qed.

(** *** No name twice, none past the depth bound *)

(** Every lookup made was for a new name, at a depth below the bound. *)
Definition lookups_ok (st : state) : Prop :=
  NoDup (fetched st).*1 /\
  (forall p, p ∈ (fetched st).*1 -> p ∈ visited st) /\
  Forall (fun pd => 0 <= pd.2 < max_depth) (fetched st).

Lemma lookups_ok_visit st pkg d (s : stmt) :
  lookups_ok st -> 0 <= d < max_depth -> pkg ∉ visited st ->
  lookups_ok (add_stmt s (visit pkg d st)).
Proof.
  intros (Hnd & Hvis & Hdepth) Hd Hnew. unfold lookups_ok. simpl.
  rewrite fmap_app. simpl. repeat split.
  - apply NoDup_app. repeat split; [exact Hnd| |apply NoDup_singleton].
    intros p Hp [->|[]%elem_of_nil]%elem_of_cons. apply Hnew, Hvis, Hp.
  - intros p [Hp|[->|[]%elem_of_nil]%elem_of_cons]%elem_of_app.
    + apply elem_of_union_r, Hvis, Hp.
    + apply elem_of_union_l, elem_of_singleton. reflexivity.
  - apply Forall_app. split; [exact Hdepth|]. repeat constructor; simpl; lia.
Qed.

Lemma add_dependencies_lookups_ok fuel pkg d st st' :
  0 <= d -> lookups_ok st ->
  add_dependencies fetch max_depth fuel pkg d st = Some st' -> lookups_ok st'.
Proof.
  apply (add_dependencies_invariant lookups_ok).
  - intros; apply lookups_ok_visit; assumption.
  - intros; apply lookups_ok_visit; assumption.
  - intros s p k data dep Hs _ _. exact Hs.
Qed.

(** Each lookup was made at the end of a path of as many edges as its
    depth. *)
Definition lookups_reached (root : string) (st : state) : Prop :=
  Forall (fun pd => reach (dot st) root pd.1 pd.2) (fetched st).

Lemma lookups_reached_grows root st st' :
  (forall x, x ∈ dot st -> x ∈ dot st') -> fetched st' = fetched st ->
  lookups_reached root st -> lookups_reached root st'.
Proof.
  unfold lookups_reached. intros Hg -> H. eapply Forall_impl; [exact H|].
  intros pd. apply reach_grows, Hg.
Qed.

Lemma lookups_reached_visit root st pkg d (s : stmt) :
  lookups_reached root st -> reach (dot st) root pkg d ->
  lookups_reached root (add_stmt s (visit pkg d st)).
Proof.
  unfold lookups_reached. simpl. intros Hst Hpkg.
  assert (Hg : forall x, x ∈ dot st -> x ∈ (dot st ++ [s])%list)
    by (intros; apply elem_of_app; auto).
  apply Forall_app. split.
  - eapply Forall_impl; [exact Hst|]. intros pd. apply reach_grows, Hg.
  - repeat constructor. simpl. eapply reach_grows; eauto.
Qed.

Lemma add_dependencies_reached root fuel : forall pkg d st st',
  0 <= d -> lookups_reached root st -> reach (dot st) root pkg d ->
  add_dependencies fetch max_depth fuel pkg d st = Some st' ->
  lookups_reached root st'.
Proof.
  induction fuel as [|fuel IH]; intros pkg d st st' Hd Hst Hpkg; [discriminate|].
  rewrite add_dependencies_S.
  destruct (_ || _); [intros [= <-]; exact Hst|].
  destruct (fetch pkg) as [data|];
    [|intros [= <-]; apply lookups_reached_visit; assumption].
  generalize (default [] (requires_dist data)) as deps.
  assert (Hst1 : lookups_reached root
            (add_stmt (Node pkg (node_label pkg data) None) (visit pkg d st)))
    by (apply lookups_reached_visit; assumption).
  assert (Hpkg1 : reach
            (dot (add_stmt (Node pkg (node_label pkg data) None) (visit pkg d st)))
            root pkg d)
    by (eapply reach_grows; [|exact Hpkg]; intros; simpl; apply elem_of_app; auto).
  revert Hst1 Hpkg1.
  generalize (add_stmt (Node pkg (node_label pkg data) None) (visit pkg d st)) as s.
  intros s Hs Hp deps. revert s Hs Hp.
  induction deps as [|dep deps IHdeps]; intros s Hs Hp; simpl; [intros [= <-]; exact Hs|].
  destruct (String.eqb dep "" || String.eqb (dep_name_of dep) ""); [apply IHdeps; assumption|].
  set (s1 := add_stmt (Edge pkg (dep_name_of dep)) s).
  assert (Hg : forall x, x ∈ dot s -> x ∈ dot s1)
    by (intros; simpl; apply elem_of_app; auto).
  assert (Hs1 : lookups_reached root s1)
    by (eapply lookups_reached_grows; [exact Hg|reflexivity|exact Hs]).
  assert (Hp1 : reach (dot s1) root pkg d) by (eapply reach_grows; eauto).
  destruct (bool_decide _); [apply IHdeps; assumption|].
  destruct (add_dependencies fetch max_depth fuel _ _ _) as [s2|] eqn:E; [|discriminate].
  apply IHdeps.
  - assert (He : Edge pkg (dep_name_of dep) ∈ dot s1).
    { simpl. apply elem_of_app. right. apply elem_of_cons. left. reflexivity. }
    eapply IH; [| |exact (reach_edge _ _ _ _ _ Hp1 He)|exact E]; [lia|exact Hs1].
  - eapply reach_grows; [|exact Hp1]. eapply dot_grows; [|exact E]. lia.
Qed.

(** C7: of the registry lookups made while the graph is built, no
    two are for the same name, and each is made at a depth below
    [max_depth], at the end of a path of that many edges from the
    root. *)
Theorem expansion_once_within_depth name st :
  create_dependency_graph fetch max_depth name = Some st ->
  NoDup (fetched st).*1 /\
  Forall (fun pd => 0 <= pd.2 < max_depth /\ reach (dot st) name pd.1 pd.2) (fetched st).
Proof.
  unfold create_dependency_graph, build. intros Hrun.
  assert (Hok : lookups_ok st).
  { eapply add_dependencies_lookups_ok; [| |exact Hrun]; [lia|].
    repeat split; simpl; [constructor|intros p []%elem_of_nil|constructor]. }
  assert (Hreach : lookups_reached name st).
  { eapply add_dependencies_reached; [| | |exact Hrun]; [lia|constructor|constructor]. }
  destruct Hok as (Hnd & _ & Hdepth). split; [exact Hnd|].
  apply Forall_and. split; assumption.
Qed.


(** Edges leave only packages whose lookup succeeded, and a failed
    lookup left its gray node. *)
Definition failures_ok (st : state) : Prop :=
  (forall tail head, Edge tail head ∈ dot st -> fetch tail <> None) /\
  (forall p d, (p, d) ∈ fetched st -> fetch p = None ->
               Node p p (Some "lightgray") ∈ dot st).

Lemma add_dependencies_failures_ok fuel pkg d st st' :
  0 <= d -> failures_ok st ->
  add_dependencies fetch max_depth fuel pkg d st = Some st' -> failures_ok st'.
Proof.
  apply (add_dependencies_invariant failures_ok).
  - intros s p k [He Hn] _ _ Hf. split; simpl.
    + intros t h [Hin|[[=]|[]%elem_of_nil]%elem_of_cons]%elem_of_app. eapply He, Hin.
    + intros q j [Hin|[[= -> ->]|[]%elem_of_nil]%elem_of_cons]%elem_of_app Hq;
        apply elem_of_app; [left; eapply Hn; eauto | right; apply elem_of_cons; auto].
  - intros s p k data [He Hn] _ _ Hf. split; simpl.
    + intros t h [Hin|[[=]|[]%elem_of_nil]%elem_of_cons]%elem_of_app. eapply He, Hin.
    + intros q j [Hin|[[= -> ->]|[]%elem_of_nil]%elem_of_cons]%elem_of_app Hq;
        [apply elem_of_app; left; eapply Hn; eauto | congruence].
  - intros s p k data dep [He Hn] _ Hf. split; simpl.
    + intros t h [Hin|[[= -> ->]|[]%elem_of_nil]%elem_of_cons]%elem_of_app;
        [eapply He, Hin | congruence].
    + intros q j Hin Hq. apply elem_of_app. left. eapply Hn; eauto.
Qed.

(** C9: a package whose lookup failed is in the graph as a gray node
    and no edge leaves it; the call that met the failure returns at
    once with that node added; and the loop that made the call goes on
    with the remaining dependencies. *)
Theorem failed_lookup_degrades name st :
  create_dependency_graph fetch max_depth name = Some st ->
  (forall pkg d, (pkg, d) ∈ fetched st -> fetch pkg = None ->
     Node pkg pkg (Some "lightgray") ∈ dot st /\
     forall head, Edge pkg head ∉ dot st) /\
  (forall fuel pkg d st0,
     d < max_depth -> pkg ∉ visited st0 -> fetch pkg = None ->
     add_dependencies fetch max_depth (S fuel) pkg d st0 =
     Some (add_stmt (Node pkg pkg (Some "lightgray")) (visit pkg d st0))) /\
  (forall fuel pkg d dep deps st0,
     dep_name_of dep <> "" -> d + 1 < max_depth ->
     dep_name_of dep ∉ visited st0 -> fetch (dep_name_of dep) = None ->
     each_dep (add_dependencies fetch max_depth (S fuel)) pkg d (dep :: deps) st0 =
     each_dep (add_dependencies fetch max_depth (S fuel)) pkg d deps
       (add_stmt (Node (dep_name_of dep) (dep_name_of dep) (Some "lightgray"))
          (visit (dep_name_of dep) (d + 1)
             (add_stmt (Edge pkg (dep_name_of dep)) st0)))).
Proof.
  unfold create_dependency_graph, build. intros Hrun.
  assert (Hlocal : forall fuel pkg d st0,
            d < max_depth -> pkg ∉ visited st0 -> fetch pkg = None ->
            add_dependencies fetch max_depth (S fuel) pkg d st0 =
            Some (add_stmt (Node pkg pkg (Some "lightgray")) (visit pkg d st0))).
  { intros fuel pkg d st0 Hd Hnew Hf. rewrite add_dependencies_S, Hf.
    destruct (Z.leb_spec max_depth d); [lia|].
    rewrite bool_decide_eq_false_2 by exact Hnew. reflexivity. }
  split; [|split; [exact Hlocal|]].
  - assert (Hok : failures_ok st).
    { eapply add_dependencies_failures_ok; [| |exact Hrun]; [lia|].
      split; simpl; [intros t h []%elem_of_nil | intros p d []%elem_of_nil]. }
    destruct Hok as [He Hn]. intros pkg d Hin Hf. split; [eapply Hn; eauto|].
    intros head Hedge. exact (He _ _ Hedge Hf).
  - intros fuel pkg d dep deps st0 Hname Hd Hnew Hf.
    cbn [each_dep].
    assert (Hdep : String.eqb dep "" = false).
    { destruct (String.eqb_spec dep "") as [->|]; [|reflexivity].
      exfalso. apply Hname. reflexivity. }
    rewrite Hdep. rewrite (proj2 (String.eqb_neq _ _) Hname). cbn [orb].
    rewrite bool_decide_eq_false_2 by exact Hnew.
    rewrite Hlocal by (simpl; assumption). reflexivity.
Qed.

End Facts.

(** A registry with a cycle ([A] and [B] require each other) and a
    package [C] whose lookup fails. *)
Definition cyclic : registry := fun name =>
  if String.eqb name "A" then
    Some {| version := Some "1.0"; requires_dist := Some ["B (>=2.0)"; "C; extra == 'x'"] |}
  else if String.eqb name "B" then
    Some {| version := Some "2.1"; requires_dist := Some ["A"] |}
  else None.

(** The graph of [A] to depth 5: the cycle is cut at the second visit
    of [A]. *)
Lemma cycle_example :
  dot <$> create_dependency_graph cyclic 5 "A" =
    Some [ Node "A" ("A" +:+ String "010" "1.0") None; Edge "A" "B";
           Node "B" ("B" +:+ String "010" "2.1") None; Edge "B" "A";
           Edge "A" "C"; Node "C" "C" (Some "lightgray") ] /\
  fetched <$> create_dependency_graph cyclic 5 "A" =
    Some [("A", 0); ("B", 1); ("C", 1)].
Proof. split; reflexivity. Qed.

Definition cycle_graph : state :=
  Eval vm_compute in default initial (create_dependency_graph cyclic 5 "A").

Lemma expansion_once_within_depth_witness :
  NoDup (fetched cycle_graph).*1 /\
  Forall (fun pd => 0 <= pd.2 < 5 /\ reach (dot cycle_graph) "A" pd.1 pd.2)
    (fetched cycle_graph).
Proof. exact (expansion_once_within_depth cyclic 5 "A" cycle_graph eq_refl). Defined.

Lemma failed_lookup_degrades_witness :
  Node "C" "C" (Some "lightgray") ∈ dot cycle_graph /\
  forall head, Edge "C" head ∉ dot cycle_graph.
Proof.
  refine (proj1 (failed_lookup_degrades cyclic 5 "A" cycle_graph eq_refl) "C" 1 _ eq_refl).
  unfold cycle_graph. simpl. rewrite !elem_of_cons. auto.
Defined.

End VisualizerFacts.

(** ** security_analyzer.py: more on the score *)
Module SecurityExtras.
Import Py PyFacts Security SecurityFacts.

(** Lines 64-66: the finding's [cvss_score], when [database_specific]
    is a dict that has one. *)
Definition cvss_of (v : vulnerability) : option pyval :=
  match default (PyDict []) (v_database_specific v) with
  | PyDict database_specific => dict_get database_specific "cvss_score"
  | _ => None
  end.

Lemma add_cvss_unfold v score :
  add_cvss v score =
  match cvss_of v with
  | Some c =>
      if truthy c then
        match py_float c with
        | Ok f => Ok (num_add score (NFloat f))
        | Raise ValueError | Raise TypeError => Ok score
        | Raise e => Raise e
        end
      else Ok score
  | None => Ok score
  end.
Proof.
  unfold add_cvss, cvss_of.
  destruct (default (PyDict []) (v_database_specific v)); reflexivity.
Qed.

Lemma py_float_raises c e :
  py_float c = Raise e -> e = ValueError \/ e = TypeError \/ e = OverflowError.
Proof.
  destruct c as [|b|z|f|s|l|d]; simpl; try discriminate; try (intros [= <-]; auto).
  - destruct (_ =? _)%float; [intros [= <-]; auto | discriminate].
  - destruct (float_of_string s); [discriminate | intros [= <-]; auto].
Qed.

Lemma py_float_overflow c :
  py_float c = Raise OverflowError <->
  exists z, c = PyInt z /\ (PrimFloat.abs (float_of_Z z) =? infinity)%float = true.
Proof.
  split.
  - destruct c as [|b|z|f|s|l|d]; simpl; try discriminate.
    + destruct (_ =? _)%float eqn:E; [eauto | discriminate].
    + destruct (float_of_string s); discriminate.
  - intros (z & -> & E). simpl. rewrite E. reflexivity.
Qed.

(** The score after the CVSS step, in the order of lines 75-103. *)
Definition other_signals (v : vulnerability) (package_name : string) (score : pynum) : pynum :=
  add_affected v
    (add_vulnerability_type (description v)
       (add_critical_package package_name
          (add_keywords (description v) score))).

Lemma severity_score_unfold v name :
  severity_score v name =
  match add_cvss v (NInt 0) with
  | Ok s => Ok (other_signals v name s)
  | Raise e => Raise e
  end.
Proof. unfold severity_score. destruct (add_cvss v (NInt 0)); reflexivity. Qed.


(** A [cvss_score] the scorer cannot use: a falsy one (null, [""],
    [0], [false], an empty list or dict), a string [float()] rejects, a
    list or a dict. *)
Definition unusable (c : pyval) : Prop :=
  truthy c = false \/
  (exists s, c = PyStr s /\ float_of_string s = None) \/
  (exists l, c = PyList l) \/ (exists d, c = PyDict d).

Definition cvss_unusable (v : vulnerability) : Prop :=
  match cvss_of v with
  | Some c => unusable c
  | None => True
  end.

Lemma add_cvss_unusable v score : cvss_unusable v -> add_cvss v score = Ok score.
Proof.
  unfold cvss_unusable. rewrite add_cvss_unfold.
  destruct (cvss_of v) as [c|]; [|reflexivity].
  intros [H|[(s & -> & H)|[(l & ->)|(d & ->)]]].
  - rewrite H. reflexivity.
  - simpl. rewrite H. destruct (negb _); reflexivity.
  - simpl. destruct l; reflexivity.
  - simpl. destruct d; reflexivity.
Qed.

Definition without_database_specific (v : vulnerability) : vulnerability :=
  {| v_id := v_id v; v_summary := v_summary v; v_details := v_details v;
     v_database_specific := None; v_affected := v_affected v;
     v_references := v_references v; v_published := v_published v;
     v_modified := v_modified v |}.


(** A finding whose score is the string ["high"]. *)
Definition worded_finding : vulnerability :=
  {| v_id := Some "OSV-1"; v_summary := Some "SQL injection in the admin view";
     v_details := None;
     v_database_specific := Some (PyDict [("cvss_score", PyStr "high")]);
     v_affected := None; v_references := None;
     v_published := None; v_modified := None |}.


(** How many elements pass a test. *)
Definition count {A : Type} (f : A -> bool) (l : list A) : Z :=
  Z.of_nat (length (List.filter f l)).

Lemma count_cons {A : Type} (f : A -> bool) x l :
  count f (x :: l) = (if f x then 1 else 0) + count f l.
Proof. unfold count. simpl. destruct (f x); simpl length; lia. Qed.

Lemma fold_keywords_int desc (l : list string) : forall z,
  fold_left (fun s keyword => if contains keyword desc then num_add s (NInt 2) else s)
    l (NInt z) = NInt (z + 2 * count (fun kw => contains kw desc) l).
Proof.
  induction l as [|kw l IH]; intros z; [unfold count; simpl; f_equal; lia|].
  cbn [fold_left]. rewrite count_cons.
  destruct (contains kw desc); simpl num_add; rewrite IH; f_equal; lia.
Qed.

Lemma fold_affected_int (l : list affected_entry) : forall z,
  fold_left (fun s entry => if affects_security entry then num_add s (NInt 2) else s)
    l (NInt z) = NInt (z + 2 * count affects_security l).
Proof.
  induction l as [|entry l IH]; intros z; [unfold count; simpl; f_equal; lia|].
  cbn [fold_left]. rewrite count_cons.
  destruct (affects_security entry); simpl num_add; rewrite IH; f_equal; lia.
Qed.



(** *** The report, entry by entry *)

Lemma determine_severity_raises v name e :
  _determine_severity v name = Raise e -> e = OverflowError.
Proof.
  unfold _determine_severity. rewrite severity_score_unfold, add_cvss_unfold.
  destruct (cvss_of v) as [c|]; [|discriminate].
  destruct (truthy c); [|discriminate].
  destruct (py_float c) as [f|e'] eqn:E; [discriminate|].
  pose proof (py_float_raises _ _ E) as [-> | [-> | ->]]; try discriminate.
  intros [= <-]. reflexivity.
Qed.

Lemma determine_severity_Ok v name sev :
  _determine_severity v name = Ok sev ->
  exists s, severity_score v name = Ok s /\ sev = classify s.
Proof.
  unfold _determine_severity. destruct (severity_score v name) as [s|]; [|discriminate].
  intros [= <-]. eauto.
Qed.

Lemma vuln_info_of_Ok v sev info :
  vuln_info_of v sev = Ok info -> i_severity info = sev /\ v_affected v <> Some [].
Proof.
  unfold vuln_info_of, first_ecosystem_specific.
  destruct (v_affected v) as [[|entry entries]|]; [discriminate|..];
    intros [= <-]; split; [reflexivity|discriminate|reflexivity|discriminate].
Qed.

(** Sorting by [sort_key] keeps the entries, and keeps the entries of
    one severity in their order. *)
Lemma list_sort_entries l sorted :
  list_sort sort_key l = Ok sorted ->
  sorted ≡ₚ l /\
  forall severity,
    filter (fun info => i_severity info = severity) sorted =
    filter (fun info => i_severity info = severity) l.
Proof.
  intros (ks & Hks & ->)%list_sort_Ok.
  assert (Hsnd : (zip ks l).*2 = l)
    by (apply snd_zip; apply Forall2_length in Hks; lia).
  assert (Hvalid : Forall (fun p => sort_key p.2 = Ok p.1) (zip ks l))
    by exact (Forall2_zip_keys (fun x k => sort_key x = Ok k) _ _ Hks).
  split.
  - rewrite sort_by_perm, Hsnd. reflexivity.
  - intros severity.
    transitivity (filter (fun info => i_severity info = severity) (zip ks l).*2);
      [|rewrite Hsnd; reflexivity].
    rewrite !filter_fmap. f_equal. apply sort_by_filter.
    intros p q Hp Hq Sp Sq. rewrite Forall_forall in Hvalid.
    apply Hvalid, sort_key_Some in Hp, Hq. congruence.
Qed.

(** A report, taken apart: the loop's result and its sorted list. *)
Lemma process_vulnerabilities_Ok vulns name version r :
  _process_vulnerabilities vulns name version = Ok r ->
  exists acc,
    process_loop name (initial_counts, []) vulns = Ok acc /\
    list_sort sort_key acc.2 = Ok (vulnerabilities r) /\
    severity_counts r = acc.1 /\
    total_vulnerabilities r = Z.of_nat (length vulns).
Proof.
  unfold _process_vulnerabilities.
  destruct (process_loop name (initial_counts, []) vulns) as [acc|e]; [|discriminate].
  cbn [mbind result_bind].
  destruct (list_sort sort_key acc.2) as [sorted|e] eqn:Es; [|discriminate].
  intros [= <-]. exists acc. repeat split. exact Es.
Qed.

Lemma process_vulnerabilities_entries vulns name version r :
  _process_vulnerabilities vulns name version = Ok r ->
  exists infos,
    Forall2 (entry_of name) vulns infos /\ vulnerabilities r ≡ₚ infos.
Proof.
  intros (acc & Hloop & Hsort & _)%process_vulnerabilities_Ok.
  apply process_loop_Ok in Hloop as (infos & Hinfos & Hl & _). simpl in Hl. subst infos.
  exists acc.2. split; [exact Hinfos|]. apply list_sort_entries, Hsort.
Qed.

(** How many entries of a list have a severity. *)
Definition entries_with (severity : string) (l : list vuln_info) : Z :=
  Z.of_nat (length (filter (fun info => i_severity info = severity) l)).

Lemma entries_with_snoc severity l info :
  entries_with severity (l ++ [info]) =
  entries_with severity l + (if bool_decide (i_severity info = severity) then 1 else 0).
Proof.
  unfold entries_with. rewrite filter_app, length_app, filter_cons, filter_nil.
  destruct (decide (i_severity info = severity)) as [H|H].
  - rewrite bool_decide_eq_true_2 by exact H. simpl. lia.
  - rewrite bool_decide_eq_false_2 by exact H. simpl. lia.
Qed.

Lemma process_one_counts name acc vuln acc' :
  process_one name acc vuln = Ok acc' ->
  forall severity c,
    acc.1 !! severity = Some c ->
    acc'.1 !! severity =
    Some (c + entries_with severity acc'.2 - entries_with severity acc.2).
Proof.
  unfold process_one.
  destruct (_determine_severity vuln name) as [sev|e]; [|discriminate].
  cbn [mbind result_bind]. unfold increment.
  destruct (acc.1 !! sev) as [n|] eqn:En; [|discriminate].
  cbn [mbind result_bind].
  destruct (vuln_info_of vuln sev) as [info|e] eqn:Ei; [|discriminate].
  intros [= <-] severity c Hc. cbn [fst snd].
  apply vuln_info_of_Ok in Ei as [Hsev _].
  rewrite entries_with_snoc, Hsev.
  destruct (decide (sev = severity)) as [->|Hne].
  - rewrite bool_decide_eq_true_2 by reflexivity.
    rewrite lookup_insert_eq. f_equal. rewrite Hc in En. injection En as <-. lia.
  - rewrite bool_decide_eq_false_2 by exact Hne.
    rewrite lookup_insert_ne by exact Hne. rewrite Hc. f_equal. lia.
Qed.

Lemma process_loop_counts name vulns : forall acc acc',
  process_loop name acc vulns = Ok acc' ->
  forall severity c,
    acc.1 !! severity = Some c ->
    acc'.1 !! severity =
    Some (c + entries_with severity acc'.2 - entries_with severity acc.2).
Proof.
  induction vulns as [|vuln rest IH]; intros acc acc'; simpl.
  - intros [= <-] severity c ->. f_equal. lia.
  - destruct (process_one name acc vuln) as [acc1|e] eqn:E1; [|discriminate].
    cbn [mbind result_bind]. intros Hrest severity c Hc.
    pose proof (process_one_counts _ _ _ _ E1 severity c Hc) as H1.
    rewrite (IH _ _ Hrest severity _ H1). f_equal. lia.
Qed.

(** Each count of the report is the number of entries of that severity
    in its list. *)
Theorem counts_match_entries vulns name version r severity :
  _process_vulnerabilities vulns name version = Ok r ->
  severity ∈ ["CRITICAL"; "HIGH"; "MEDIUM"; "LOW"] ->
  severity_counts r !! severity = Some (entries_with severity (vulnerabilities r)).
Proof.
  intros (acc & Hloop & Hsort & -> & _)%process_vulnerabilities_Ok Hsev.
  assert (H0 : (initial_counts, @nil vuln_info).1 !! severity = Some 0).
  { cbn [fst]. repeat (apply elem_of_cons in Hsev as [->|Hsev]; [reflexivity|]).
    apply elem_of_nil in Hsev as []. }
  rewrite (process_loop_counts _ _ _ _ Hloop severity 0 H0). f_equal.
  apply list_sort_entries in Hsort as [_ Hsame].
  unfold entries_with. simpl. rewrite Hsame. lia.
Qed.

Lemma counts_match_entries_witness :
  severity_counts sample_report !! "LOW" =
  Some (entries_with "LOW" (vulnerabilities sample_report)).
Proof.
  apply (counts_match_entries sample_findings "cryptography" None sample_report "LOW").
  - reflexivity.
  - rewrite !elem_of_cons. auto.
Defined.

(** *** When there is a report *)

(** A finding the loop gets through: its score is there, and its
    ["affected"] list, if it has one, is not empty. *)
Definition scorable (package_name : string) (v : vulnerability) : Prop :=
  (exists s, severity_score v package_name = Ok s) /\ v_affected v <> Some [].

Lemma entry_of_scorable name v info : entry_of name v info -> scorable name v.
Proof.
  intros (sev & Hsev & Hinfo). split.
  - apply determine_severity_Ok in Hsev as (s & Hs & _). eauto.
  - apply vuln_info_of_Ok in Hinfo as [_ H]. exact H.
Qed.

Lemma process_loop_raises name vulns : forall acc e,
  dom acc.1 = ({[ "CRITICAL"; "HIGH"; "MEDIUM"; "LOW" ]} : gset string) ->
  process_loop name acc vulns = Raise e -> e = OverflowError \/ e = IndexError.
Proof.
  induction vulns as [|v rest IH]; intros acc e Hdom; simpl; [discriminate|].
  destruct (process_one name acc v) as [acc1|e1] eqn:E1; cbn [mbind result_bind].
  - apply IH. apply process_one_Ok in E1 as (_ & _ & _ & -> & _). exact Hdom.
  - intros [= <-]. revert E1. unfold process_one.
    destruct (_determine_severity v name) as [sev|e2] eqn:Es; cbn [mbind result_bind].
    + apply determine_severity_Ok in Es as (s & _ & ->).
      destruct (increment_in_dom (classify s) acc.1) as [counts ->].
      { rewrite Hdom. destruct (classify_cases s) as [-> | [-> | [-> | ->]]]; set_solver. }
      cbn [mbind result_bind]. unfold vuln_info_of, first_ecosystem_specific.
      destruct (v_affected v) as [[|entry entries]|]; cbn [mbind result_bind];
        first [discriminate | intros [= <-]; auto].
    + intros [= <-]. apply determine_severity_raises in Es. auto.
Qed.

Lemma process_vulnerabilities_raises vulns name version e :
  _process_vulnerabilities vulns name version = Raise e ->
  e = OverflowError \/ e = IndexError.
Proof.
  unfold _process_vulnerabilities.
  destruct (process_loop name (initial_counts, []) vulns) as [acc|e1] eqn:El;
    cbn [mbind result_bind].
  - apply process_loop_Ok in El as (infos & Hinfos & Hl & _). simpl in Hl. subst infos.
    destruct (mapM_returns sort_key acc.2) as [ks Hks].
    { clear -Hinfos. induction Hinfos as [|v i vs infos Hi _ IH]; constructor; [|exact IH].
      apply entry_of_sort_key in Hi as (k & Hk & _). eauto. }
    unfold list_sort. rewrite Hks. discriminate.
  - intros [= <-]. eapply process_loop_raises; [|exact El]. apply dom_initial_counts.
Qed.


(** *** Fixed versions *)

(** A value is reported as a fixed version exactly when it is the
    ["fixed"] of an event of an [ECOSYSTEM] range of an affected
    entry. *)
Theorem fixed_versions_iff (v : vulnerability) (x : pyval) :
  x ∈ fixed_versions v <->
  exists entry range event,
    entry ∈ default [] (v_affected v) /\
    range ∈ default [] (a_ranges entry) /\
    r_type range = Some "ECOSYSTEM" /\
    event ∈ default [] (r_events range) /\
    dict_get event "fixed" = Some x.
Proof.
  unfold fixed_versions. rewrite list_elem_of_In, in_flat_map. split.
  - intros (entry & Hentry & Hx). apply in_flat_map in Hx as (range & Hrange & Hx).
    unfold fixed_of_range in Hx. case_bool_decide as Ht; [|destruct Hx].
    apply list_elem_of_In, list_elem_of_omap in Hx as (event & Hevent & Hfixed).
    exists entry, range, event.
    repeat split; first [assumption | apply list_elem_of_In; assumption].
  - intros (entry & range & event & Hentry & Hrange & Ht & Hevent & Hfixed).
    exists entry. split; [apply list_elem_of_In, Hentry|].
    apply in_flat_map. exists range. split; [apply list_elem_of_In, Hrange|].
    unfold fixed_of_range. rewrite bool_decide_eq_true_2 by exact Ht.
    apply list_elem_of_In, list_elem_of_omap. eauto.
Qed.

End SecurityExtras.

(** ** security_analyzer.py: the query, and utils.py: the table *)
Module AnalyzerFacts.
Import Py PyFacts Security SecurityFacts SecurityExtras Analyzer Display.


(** *** The table of the report *)

Definition is_str (x : pyval) : Prop := exists s, x = PyStr s.

Lemma strings_of_cases l :
  match strings_of l with
  | Ok _ => Forall is_str l
  | Raise e => e = TypeError /\ ~ Forall is_str l
  end.
Proof.
  induction l as [|x l IH]; simpl; [constructor|].
  destruct x as [|b|z|f|s|l'|d];
    try (split; [reflexivity | intros [[s' [=]] _]%Forall_cons]).
  destruct (strings_of l) as [ss|e]; cbn [mbind result_bind].
  - constructor; [exists s; reflexivity | exact IH].
  - destruct IH as [-> IH]. split; [reflexivity|]. intros [_ H]%Forall_cons. auto.
Qed.

Lemma fixed_versions_text_cases l :
  match fixed_versions_text l with
  | Ok _ => Forall is_str l
  | Raise e => e = TypeError /\ ~ Forall is_str l
  end.
Proof.
  unfold fixed_versions_text, join. destruct l as [|x l]; [constructor|].
  pose proof (strings_of_cases (x :: l)) as H.
  destruct (strings_of (x :: l)); exact H.
Qed.

Lemma row_of_cases info :
  match row_of info with
  | Ok row =>
      Forall is_str (i_fixed_versions info) /\
      row_id row = i_id info /\ row_severity row = i_severity info /\
      row_style row = severity_style (i_severity info) /\
      row_summary row = i_summary info
  | Raise e => e = TypeError /\ ~ Forall is_str (i_fixed_versions info)
  end.
Proof.
  unfold row_of. pose proof (fixed_versions_text_cases (i_fixed_versions info)) as H.
  destruct (fixed_versions_text (i_fixed_versions info)); cbn [mbind result_bind]; auto.
Qed.

Lemma rows_cases (l : list vuln_info) :
  match mapM row_of l with
  | Ok rows =>
      Forall (fun info => Forall is_str (i_fixed_versions info)) l /\
      Forall2 (fun info row =>
                 row_id row = i_id info /\ row_severity row = i_severity info /\
                 row_style row = severity_style (i_severity info) /\
                 row_summary row = i_summary info) l rows
  | Raise e =>
      e = TypeError /\ ~ Forall (fun info => Forall is_str (i_fixed_versions info)) l
  end.
Proof.
  induction l as [|info l IH]; simpl; [split; constructor|].
  pose proof (row_of_cases info) as Hrow.
  destruct (row_of info) as [row|e]; cbn [mbind result_bind].
  - destruct (mapM row_of l) as [rows|e]; cbn [mbind result_bind].
    + destruct Hrow as [Hstr Hrow], IH as [Hall Hrows]. split; constructor; auto.
    + destruct IH as [-> IH]. split; [reflexivity|]. intros [_ H]%Forall_cons. auto.
  - destruct Hrow as [-> Hrow]. split; [reflexivity|]. intros [H _]%Forall_cons. auto.
Qed.

(** The table is built exactly when every fixed version of every entry
    is a string; a null or a number among them makes [", ".join] raise
    [TypeError].  When it is built it has one row per entry, in order,
    and no entry at all gives the note instead of a table. *)
Theorem details_or_type_error (r : report) :
  match vulnerability_details r with
  | Ok NoVulnerabilities => vulnerabilities r = []
  | Ok (Table rows) =>
      vulnerabilities r <> [] /\
      Forall (fun info => Forall is_str (i_fixed_versions info)) (vulnerabilities r) /\
      Forall2 (fun info row =>
                 row_id row = i_id info /\ row_severity row = i_severity info /\
                 row_style row = severity_style (i_severity info) /\
                 row_summary row = i_summary info) (vulnerabilities r) rows
  | Raise e =>
      e = TypeError /\
      ~ Forall (fun info => Forall is_str (i_fixed_versions info)) (vulnerabilities r)
  end.
Proof.
  unfold vulnerability_details.
  destruct (vulnerabilities r) as [|info l] eqn:E; [reflexivity|].
  pose proof (rows_cases (info :: l)) as H.
  destruct (mapM row_of (info :: l)) as [rows|e]; cbn [mbind result_bind]; [|exact H].
  destruct H as [Hall Hrows]. split; [discriminate|]. split; assumption.
Qed.

Lemma entry_of_severity name v info :
  entry_of name v info ->
  i_severity info ∈ ["CRITICAL"; "HIGH"; "MEDIUM"; "LOW"].
Proof.
  intros (sev & Hsev & Hinfo).
  apply determine_severity_Ok in Hsev as (s & _ & ->).
  apply vuln_info_of_Ok in Hinfo as [-> _].
  rewrite !elem_of_cons.
  destruct (classify_cases s) as [-> | [-> | [-> | ->]]]; auto.
Qed.

(** Every row of the table of a report of the analyzer has one of the
    four colours of its severity; the fallback colour never shows. *)
Theorem report_rows_coloured vulns name version r rows :
  _process_vulnerabilities vulns name version = Ok r ->
  vulnerability_details r = Ok (Table rows) ->
  length rows = length vulns /\
  Forall (fun row =>
            row_severity row ∈ ["CRITICAL"; "HIGH"; "MEDIUM"; "LOW"] /\
            row_style row ∈ ["red"; "yellow"; "magenta"; "blue"] /\
            row_style row <> "white") rows.
Proof.
  intros Hr Hd. pose proof (details_rows := rows_cases (vulnerabilities r)).
  assert (Hrows : mapM row_of (vulnerabilities r) = Ok rows).
  { revert Hd. unfold vulnerability_details.
    destruct (vulnerabilities r); [discriminate|].
    destruct (mapM row_of (v :: l)); cbn [mbind result_bind]; [|discriminate].
    intros [= <-]. reflexivity. }
  rewrite Hrows in details_rows. destruct details_rows as [_ Hrel].
  apply process_vulnerabilities_entries in Hr as (infos & Hinfos & Hperm).
  split.
  - rewrite <- (Forall2_length _ _ _ Hrel), Hperm.
    symmetry. eapply Forall2_length, Hinfos.
  - assert (Hsev : Forall (fun info => i_severity info ∈ ["CRITICAL"; "HIGH"; "MEDIUM"; "LOW"])
                     (vulnerabilities r)).
    { rewrite Hperm. clear -Hinfos.
      induction Hinfos; constructor; eauto using entry_of_severity. }
    clear -Hrel Hsev. induction Hrel as [|info row l rows (_ & Hs & Hst & _) _ IH];
      [constructor|].
    apply Forall_cons in Hsev as [Hinfo Hsev]. constructor; [|auto].
    rewrite Hs, Hst. split; [exact Hinfo|].
    rewrite !elem_of_cons in Hinfo |- *.
    destruct Hinfo as [-> | [-> | [-> | [-> | []%elem_of_nil]]]];
      (split; [auto 6 | discriminate]).
Qed.

Definition sample_rows : list row :=
  Eval vm_compute in
    match vulnerability_details sample_report with
    | Ok (Table rows) => rows
    | _ => []
    end.

Lemma report_rows_coloured_witness :
  length sample_rows = length sample_findings /\
  Forall (fun row =>
            row_severity row ∈ ["CRITICAL"; "HIGH"; "MEDIUM"; "LOW"] /\
            row_style row ∈ ["red"; "yellow"; "magenta"; "blue"] /\
            row_style row <> "white") sample_rows.
Proof.
  exact (report_rows_coloured sample_findings "cryptography" None sample_report
           sample_rows eq_refl eq_refl).
Defined.

End AnalyzerFacts.

(** ** issue_tracker.py: the repository and its pages *)
Module IssuesExtras.
Import Py PyFacts Issues IssuePages.

(** *** Stripping a character *)

Lemma lstrip_char_head x s t : lstrip_char x s <> String x t.
Proof.
  induction s as [|c s IH]; simpl; [discriminate|].
  destruct (Ascii.eqb_spec c x) as [->|Hne]; [exact IH|].
  intros [= -> _]. apply Hne. reflexivity.
Qed.

Lemma rstrip_char_head x s a t :
  rstrip_char x s = String a t -> exists t', s = String a t'.
Proof.
  destruct s as [|c s]; simpl; [discriminate|].
  destruct (rstrip_char x s); [destruct (Ascii.eqb c x); [discriminate|]|];
    intros [= -> _]; eauto.
Qed.

Lemma rstrip_char_last x s t : rstrip_char x s <> t +:+ String x "".
Proof.
  revert t. induction s as [|c s IH]; intros t; simpl.
  - destruct t; discriminate.
  - destruct (rstrip_char x s) as [|d r] eqn:E.
    + destruct (Ascii.eqb_spec c x) as [->|Hne]; [destruct t; discriminate|].
      destruct t as [|e t]; simpl; [intros [= ->]; apply Hne; reflexivity|].
      intros [= _ H]. destruct t; discriminate.
    + destruct t as [|e t]; simpl; [discriminate|].
      intros [= _ H]. exact (IH t H).
Qed.

(** [s.strip(x)] neither starts nor ends with [x]. *)
Lemma strip_char_ends x s :
  (forall t, strip_char x s <> String x t) /\
  (forall t, strip_char x s <> t +:+ String x "").
Proof.
  unfold strip_char. split; [|intros t; apply rstrip_char_last].
  intros t H. apply rstrip_char_head in H as [t' H].
  exact (lstrip_char_head _ _ _ H).
Qed.

(** *** The repository the registry names *)

(** A value of [project_urls] the loop passes over: a falsy one, or a
    string that does not mention the forge. *)
Definition passed_over (kv : string * pyval) : Prop :=
  truthy kv.2 = false \/
  exists u, kv.2 = PyStr u /\ contains "github.com" (lower u) = false.

Lemma first_github_Some name urls repo :
  first_github name urls = Some repo ->
  exists before key u after,
    urls = (before ++ (key, PyStr u) :: after)%list /\
    Forall passed_over before /\
    contains "github.com" (lower u) = true /\
    repo = {| repo_name := name; repo_url := strip_char "/" u;
              repo_source := "PyPI project_urls" |}.
Proof.
  induction urls as [|[key value] urls IH]; simpl; [discriminate|].
  destruct (truthy value) eqn:Ht.
  - destruct value as [|b|z|f|u|l|d]; try discriminate.
    destruct (contains "github.com" (lower u)) eqn:Hc.
    + intros [= <-]. exists [], key, u, urls. repeat split; auto.
    + intros (before & k & u' & after & -> & Hb & Hu & ->)%IH.
      exists ((key, PyStr u) :: before), k, u', after. repeat split; auto.
      constructor; [right; eauto | exact Hb].
  - intros (before & k & u' & after & -> & Hb & Hu & ->)%IH.
    exists ((key, value) :: before), k, u', after. repeat split; auto.
    constructor; [left; exact Ht | exact Hb].
Qed.

(** The repository found in the registry's record is the first URL of
    [project_urls] that mentions the forge (every value before it is
    falsy or a string without it), with the slashes at its ends
    removed. *)
Theorem repo_from_pypi_is_first_github (w : world) name l repo :
  (_get_repo_from_pypi w name l).1 = Some repo ->
  exists data before key u after,
    pypi w name = Some data /\
    default [] (project_urls data) = (before ++ (key, PyStr u) :: after)%list /\
    Forall passed_over before /\
    contains "github.com" (lower u) = true /\
    repo_name repo = name /\
    repo_source repo = "PyPI project_urls" /\
    repo_url repo = strip_char "/" u /\
    (forall t, repo_url repo <> String "/" t) /\
    (forall t, repo_url repo <> t +:+ "/").
Proof.
  unfold _get_repo_from_pypi. destruct (pypi w name) as [data|]; [|discriminate].
  simpl. intros (before & key & u & after & Hurls & Hb & Hu & ->)%first_github_Some.
  exists data, before, key, u, after. simpl.
  destruct (strip_char_ends "/" u) as [Hhead Hlast]. repeat split; auto.
Qed.

(** A registry whose package lists its documentation, then its
    repository. *)
Definition with_repo (name : string) : option pypi_data :=
  if String.eqb name "leftpad"
  then Some {| project_urls :=
                 Some [("Documentation", PyStr "https://leftpad.readthedocs.io/");
                       ("Funding", PyNone);
                       ("Source", PyStr "https://GitHub.com/left/pad/")] |}
  else None.

Definition no_pages : pages := fun _ => None.

Lemma repo_from_pypi_is_first_github_witness :
  exists data before key u after,
    pypi (world_of with_repo no_pages) "leftpad" = Some data /\
    default [] (project_urls data) = (before ++ (key, PyStr u) :: after)%list /\
    Forall passed_over before /\
    contains "github.com" (lower u) = true /\
    repo_name {| repo_name := "leftpad"; repo_url := "https://GitHub.com/left/pad";
                 repo_source := "PyPI project_urls" |} = "leftpad" /\
    repo_source {| repo_name := "leftpad"; repo_url := "https://GitHub.com/left/pad";
                   repo_source := "PyPI project_urls" |} = "PyPI project_urls" /\
    repo_url {| repo_name := "leftpad"; repo_url := "https://GitHub.com/left/pad";
                repo_source := "PyPI project_urls" |} = strip_char "/" u /\
    (forall t, repo_url {| repo_name := "leftpad"; repo_url := "https://GitHub.com/left/pad";
                           repo_source := "PyPI project_urls" |} <> String "/" t) /\
    (forall t, repo_url {| repo_name := "leftpad"; repo_url := "https://GitHub.com/left/pad";
                           repo_source := "PyPI project_urls" |} <> t +:+ "/").
Proof.
  exact (repo_from_pypi_is_first_github (world_of with_repo no_pages) "leftpad" [] _ eq_refl).
Defined.

(** *** The issue listings *)

Lemma prefix_self_app a b : String.prefix a (a +:+ b) = true.
Proof.
  induction a as [|c a IH]; simpl; [apply prefix_empty|].
  destruct (ascii_dec c c); [exact IH|congruence].
Qed.

Lemma omap_id_length {A : Type} (l : list (option A)) :
  (length (omap id l) <= length l)%nat.
Proof. induction l as [|[x|] l IH]; csimpl; simpl; lia. Qed.

Lemma issue_of_row_Some row i :
  issue_of_row row = Ok (Some i) ->
  String.prefix "https://github.com" (issue_url i) = true /\ issue_comments i = "0".
Proof.
  unfold issue_of_row.
  destruct (find "h3" _ _); [|discriminate].
  destruct (find "a" _ _) as [link|]; [|discriminate].
  destruct (attr "href" link) as [href|]; [|discriminate].
  intros [= <-]. split; [apply prefix_self_app|reflexivity].
Qed.

Lemma issues_of_soup_Ok soup l :
  issues_of_soup soup = Ok l ->
  (length l <= 5)%nat /\
  Forall (fun i => String.prefix "https://github.com" (issue_url i) = true /\
                   issue_comments i = "0") l.
Proof.
  unfold issues_of_soup.
  destruct (mapM issue_of_row _) as [found|e] eqn:E; [|discriminate].
  intros [= <-]. apply mapM_Ok in E. split.
  - etransitivity; [apply omap_id_length|].
    rewrite <- (Forall2_length _ _ _ E), length_take. lia.
  - clear -E. induction E as [|row [i|] rows found Hrow _ IH]; simpl; auto.
    constructor; [eapply issue_of_row_Some, Hrow | exact IH].
Qed.

Lemma issues_of_soup_bound (w : pages) url : (length (issues_of_page w url) <= 5)%nat.
Proof.
  unfold issues_of_page. destruct (w url) as [soup|]; [|simpl; lia].
  destruct (issues_of_soup soup) as [l|e] eqn:E; [|simpl; lia].
  apply (issues_of_soup_Ok _ _ E).
Qed.

(** A listing gives at most five issues, each with a URL on the forge
    and the comment count ["0"], whatever the page holds. *)
Theorem issue_listing_bounds (w : pages) url :
  (length (issues_of_page w url) <= 5)%nat /\
  Forall (fun i => String.prefix "https://github.com" (issue_url i) = true /\
                   issue_comments i = "0") (issues_of_page w url).
Proof.
  unfold issues_of_page. destruct (w url) as [soup|]; [|split; [simpl; lia|constructor]].
  destruct (issues_of_soup soup) as [l|e] eqn:E; [|split; [simpl; lia|constructor]].
  exact (issues_of_soup_Ok _ _ E).
Qed.

(** One title link without [href] among the first five rows, and the
    [KeyError] it raises empties the whole listing, the issues of the
    other rows included. *)
Theorem missing_href_empties_listing (w : pages) url soup row title_elem title_link :
  w url = Some soup ->
  row ∈ take 5 (find_all "div" (class_has "IssueRow-") soup) ->
  find "h3" (class_has "markdown-title") (children_of row) = Some title_elem ->
  find "a" (fun _ => true) (children_of title_elem) = Some title_link ->
  attr "href" title_link = None ->
  issues_of_page w url = [].
Proof.
  intros Hw Hrow Hh3 Ha Hhref. unfold issues_of_page. rewrite Hw.
  assert (Hraise : issue_of_row row = Raise KeyError).
  { unfold issue_of_row. rewrite Hh3, Ha, Hhref. reflexivity. }
  unfold issues_of_soup.
  destruct (mapM issue_of_row _) as [found|e] eqn:E; [|reflexivity].
  exfalso. apply mapM_Ok in E.
  apply list_elem_of_lookup in Hrow as [k Hk].
  destruct (Forall2_lookup_l _ _ _ _ _ E Hk) as (x & _ & Hx). congruence.
Qed.

(** A listing of two issues, the second one with a link that has no
    [href]. *)
Definition issue_row (link_attrs : list (string * string)) (title : string) : node :=
  Elem "div" ["Box-row"; "IssueRow-module__row"] []
    [Elem "h3" ["markdown-title"] [] [Elem "a" [] link_attrs [Text title]]].

Definition broken_listing : pages := fun url =>
  if String.eqb url "https://github.com/left/pad/issues"
  then Some [Elem "main" [] []
               [issue_row [("href", "/left/pad/issues/7")] "  Pads on the right  ";
                issue_row [] "No link target"]]
  else None.

Lemma missing_href_empties_listing_witness :
  issues_of_page broken_listing "https://github.com/left/pad/issues" = [].
Proof.
  refine (missing_href_empties_listing broken_listing
            "https://github.com/left/pad/issues" _ (issue_row [] "No link target")
            _ _ eq_refl _ eq_refl eq_refl eq_refl).
  simpl. rewrite !elem_of_cons. auto.
Defined.

(** *** The counters *)


(** A landing page with 12 open issues and "1.2k" pull requests. *)
Definition abbreviated : pages := fun url =>
  if String.eqb url "https://github.com/left/pad"
  then Some [Elem "nav" [] []
               [Elem "span" ["Counter"] [("id", "issues-repo-tab-count"); ("title", "12")]
                  [Text "12"];
                Elem "span" ["Counter"]
                  [("id", "pull-requests-repo-tab-count"); ("title", "1.2k")]
                  [Text "1.2k"]]]
  else None.


(** *** The analysis of a package with a repository *)

(** Once the registry names the repository, [analyze_issues] returns a
    summary after exactly four requests, in this order: the registry,
    the landing page, the issue listing, the listing sorted by comments.
    A page that cannot be fetched gives zeros or an empty list, and no
    listing has more than five issues. *)
Theorem analyze_issues_with_repo (registry : string -> option pypi_data) (w : pages)
    name l repo :
  (_get_repo_from_pypi (world_of registry w) name l).1 = Some repo ->
  exists s,
    analyze_issues (world_of registry w) name l =
      (Ok (Summary s),
       (l ++ [pypi_url name; repo_url repo; repo_url repo +:+ "/issues";
              repo_url repo +:+ "/issues?q=is:issue&sort=comments"])%list) /\
    s_repository s = repo /\
    s_summary s = stats_of_page w (repo_url repo) /\
    s_recent_issues s = issues_of_page w (repo_url repo +:+ "/issues") /\
    s_top_issues s =
      issues_of_page w (repo_url repo +:+ "/issues?q=is:issue&sort=comments") /\
    (w (repo_url repo) = None -> s_summary s = no_stats) /\
    (w (repo_url repo +:+ "/issues") = None -> s_recent_issues s = []) /\
    (length (s_recent_issues s) <= 5)%nat /\ (length (s_top_issues s) <= 5)%nat.
Proof.
  unfold analyze_issues, analyze_issues_with.
  assert (Hl : (_get_repo_from_pypi (world_of registry w) name l).2 =
               (l ++ [pypi_url name])%list)
    by (unfold _get_repo_from_pypi; destruct (pypi _ name); reflexivity).
  destruct (_get_repo_from_pypi (world_of registry w) name l) as [found l']. simpl in *.
  intros ->. subst l'.
  unfold _get_repo_stats, _get_recent_issues, _get_top_issues. simpl.
  eexists. split; [rewrite <- !app_assoc; reflexivity|]. simpl.
  repeat split.
  - intros H. unfold stats_of_page. rewrite H. reflexivity.
  - intros H. unfold issues_of_page. rewrite H. reflexivity.
  - apply issues_of_soup_bound.
  - apply issues_of_soup_bound.
Qed.

Definition left_pad : repo_info :=
  {| repo_name := "leftpad"; repo_url := "https://GitHub.com/left/pad";
     repo_source := "PyPI project_urls" |}.

Lemma analyze_issues_with_repo_witness :
  exists s,
    analyze_issues (world_of with_repo no_pages) "leftpad" [] =
      (Ok (Summary s),
       ([] ++ [pypi_url "leftpad"; repo_url left_pad; repo_url left_pad +:+ "/issues";
               repo_url left_pad +:+ "/issues?q=is:issue&sort=comments"])%list) /\
    s_repository s = left_pad /\
    s_summary s = stats_of_page no_pages (repo_url left_pad) /\
    s_recent_issues s = issues_of_page no_pages (repo_url left_pad +:+ "/issues") /\
    s_top_issues s =
      issues_of_page no_pages (repo_url left_pad +:+ "/issues?q=is:issue&sort=comments") /\
    (no_pages (repo_url left_pad) = None -> s_summary s = no_stats) /\
    (no_pages (repo_url left_pad +:+ "/issues") = None -> s_recent_issues s = []) /\
    (length (s_recent_issues s) <= 5)%nat /\ (length (s_top_issues s) <= 5)%nat.
Proof.
  exact (analyze_issues_with_repo with_repo no_pages "leftpad" [] left_pad eq_refl).
Defined.

End IssuesExtras.

(** ** More on the metadata fetcher *)
Module ScraperExtras.
Import Py PyFacts Scraper.

(** *** [str.strip] and [split(sep)[0]] *)

Lemma lstrip_head s c t : lstrip s = String c t -> is_space c = false.
Proof.
  induction s as [|a s IH]; simpl; [discriminate|].
  destruct (is_space a) eqn:Ea; [exact IH|]. intros [= <- _]. exact Ea.
Qed.

Lemma rstrip_cons c s : is_space c = false -> rstrip (String c s) = String c (rstrip s).
Proof. intros Hc. simpl. rewrite Hc. destruct (rstrip s); reflexivity. Qed.

Lemma rstrip_rstrip s : rstrip (rstrip s) = rstrip s.
Proof.
  induction s as [|c s IH]; [reflexivity|]. simpl.
  destruct (rstrip s) as [|a r] eqn:Er.
  - destruct (is_space c) eqn:Ec; [reflexivity|]. simpl. rewrite Ec. reflexivity.
  - change (rstrip (String c (String a r))) with
      (match rstrip (String a r) with
       | EmptyString => if is_space c then EmptyString else String c EmptyString
       | String x y => String c (String x y)
       end).
    rewrite IH. reflexivity.
Qed.

Lemma lstrip_strip s : lstrip (strip s) = strip s.
Proof.
  unfold strip. destruct (lstrip s) as [|c t] eqn:E; [reflexivity|].
  apply lstrip_head in E. rewrite (rstrip_cons _ _ E). simpl. rewrite E. reflexivity.
Qed.

(** Stripping what was stripped changes nothing. *)
Lemma strip_strip s : strip (strip s) = strip s.
Proof.
  unfold strip at 1. rewrite lstrip_strip. unfold strip. apply rstrip_rstrip.
Qed.

Lemma lstrip_chars s c :
  c ∈ list_ascii_of_string (lstrip s) -> c ∈ list_ascii_of_string s.
Proof.
  induction s as [|a s IH]; simpl; [auto|].
  destruct (is_space a); [|auto]. intros H. apply elem_of_cons. right. exact (IH H).
Qed.

Lemma rstrip_chars s c :
  c ∈ list_ascii_of_string (rstrip s) -> c ∈ list_ascii_of_string s.
Proof.
  induction s as [|a s IH]; simpl; [auto|].
  destruct (rstrip s) as [|b r].
  - destruct (is_space a); simpl; [intros []%elem_of_nil|].
    intros [->|[]%elem_of_nil]%elem_of_cons. apply elem_of_cons. auto.
  - simpl. intros [->|H]%elem_of_cons; apply elem_of_cons; [auto|right; exact (IH H)].
Qed.

Lemma strip_chars s c :
  c ∈ list_ascii_of_string (strip s) -> c ∈ list_ascii_of_string s.
Proof. intros H. apply lstrip_chars, rstrip_chars, H. Qed.

Lemma split_head_chars sep s c :
  c ∈ list_ascii_of_string (split_head sep s) ->
  c <> sep /\ c ∈ list_ascii_of_string s.
Proof.
  induction s as [|a s IH]; simpl; [intros []%elem_of_nil|].
  destruct (Ascii.eqb_spec a sep) as [->|Ha]; simpl; [intros []%elem_of_nil|].
  intros [->|H]%elem_of_cons.
  - split; [exact Ha|apply elem_of_cons; auto].
  - destruct (IH H). split; [assumption|apply elem_of_cons; auto].
Qed.

(** *** The dependencies of the API record *)

(** The names [_extract_dependencies] returns: no more of them than
    [requires_dist] has entries, none with a [;] in it, none with
    white space at either end. *)
Theorem dependencies_clean (data : pypi_data) (version : option string) :
  (length (_extract_dependencies data version) <=
   length (default [] (requires_dist (info data))))%nat /\
  Forall (fun d => (";"%char ∉ list_ascii_of_string d) /\ strip d = d)
    (_extract_dependencies data version).
Proof.
  unfold _extract_dependencies.
  destruct (requires_dist (info data)) as [[|dep deps]|];
    [split; [simpl; lia|constructor] | | split; [simpl; lia|constructor]].
  cbn [default]. generalize (dep :: deps) as l. clear. intros l. split.
  - rewrite length_map. apply List.filter_length_le.
  - apply Forall_map, Forall_forall. intros d _. simpl. split.
    + intros H. apply strip_chars, split_head_chars in H as [H _]. congruence.
    + apply strip_strip.
Qed.

(** *** The fields of the project page *)

Lemma omap_length {A B : Type} (f : A -> option B) (l : list A) :
  (length (omap f l) <= length l)%nat.
Proof. induction l as [|x l IH]; csimpl; [lia|]. destruct (f x); simpl; lia. Qed.

Lemma latest_releases_length soup : (length (_extract_latest_releases soup) <= 5)%nat.
Proof.
  unfold _extract_latest_releases.
  etransitivity; [apply omap_length|]. rewrite length_take. lia.
Qed.

(** Every string the page gives is stripped, the fallback included;
    the releases are five at most. *)
Theorem scraped_fields_stripped (soup : list node) :
  strip (_extract_installation_guide soup) = _extract_installation_guide soup /\
  (length (_extract_latest_releases soup) <= 5)%nat /\
  Forall (fun r => strip r = r) (_extract_latest_releases soup) /\
  Forall (fun m => strip m = m) (maintainers (_extract_community_info soup)) /\
  map_Forall (fun name value => strip name = name /\ strip value = value)
    (_extract_project_stats soup).
Proof.
  split; [|split; [apply latest_releases_length|split; [|split]]].
  - unfold _extract_installation_guide.
    destruct (find _ _ _); [apply strip_strip|reflexivity].
  - unfold _extract_latest_releases. apply Forall_forall. intros r Hr.
    apply list_elem_of_omap in Hr as (release & _ & Hr).
    destruct (find _ _ _); [|discriminate]. injection Hr as <-. apply strip_strip.
  - unfold _extract_community_info. simpl.
    destruct (find _ _ _); [|constructor].
    apply Forall_map, Forall_forall. intros m _. apply strip_strip.
  - unfold _extract_project_stats. destruct (find "div" _ _); [|apply map_Forall_empty].
    generalize (find_all "p" None (children_of n)) as stats.
    assert (H0 : map_Forall (fun name value : string =>
                   strip name = name /\ strip value = value) (∅ : gmap string string))
      by apply map_Forall_empty.
    revert H0. generalize (∅ : gmap string string) as m.
    intros m Hm stats. revert m Hm.
    induction stats as [|stat stats IH]; intros m Hm; simpl; [exact Hm|].
    apply IH.
    destruct (find "span" (Some "package-header__stat-name") _); [|exact Hm].
    destruct (find "span" (Some "package-header__stat-value") _); [|exact Hm].
    apply map_Forall_insert_2; [split; apply strip_strip|exact Hm].
Qed.

(** *** The two requests *)

(** [fetch_package_info] asks the API first and the project page
    second.  When the API request fails the page is not asked for; when
    the page request fails the API record is lost with it; a result
    comes only when both answer, with the name as given and the version
    as given unless it is empty or [None]. *)
Theorem fetch_all_or_nothing (w : world) name (version : option string) (l : log) :
  match api w name, page w (page_url name version) with
  | None, _ =>
      fetch_package_info w name version l =
        (Raise RequestException, (l ++ [api_url name])%list)
  | Some _, None =>
      fetch_package_info w name version l =
        (Raise RequestException, (l ++ [api_url name; page_url name version])%list)
  | Some data, Some soup =>
      exists a p,
        fetch_package_info w name version l =
          (Ok (a, p), (l ++ [api_url name; page_url name version])%list) /\
        r_name a = name /\
        r_version a = default (Scraper.version (info data)) (given version) /\
        r_dependencies a = _extract_dependencies data None /\
        installation_guide p = _extract_installation_guide soup /\
        latest_releases p = _extract_latest_releases soup
  end.
Proof.
  unfold fetch_package_info, _fetch_api_data, _scrape_pypi_page.
  destruct (api w name) as [data|]; [|reflexivity].
  destruct (page w (page_url name version)) as [soup|];
    [|rewrite <- app_assoc; reflexivity].
  eexists _, _. split; [rewrite <- app_assoc; reflexivity|]. simpl.
  repeat split.
Qed.

End ScraperExtras.

(** ** More on the dependency graph *)
Module VisualizerExtras.
Import Py PyFacts Visualizer VisualizerFacts.

Section Extras.
Context (fetch : registry) (max_depth : Z).

(** *** What only grows *)

Definition grows (st st' : state) : Prop :=
  (forall x, x ∈ dot st -> x ∈ dot st') /\
  (forall p, p ∈ (fetched st).*1 -> p ∈ (fetched st').*1).

Lemma grows_refl st : grows st st.
Proof. split; auto. Qed.

Lemma grows_trans st1 st2 st3 : grows st1 st2 -> grows st2 st3 -> grows st1 st3.
Proof. intros [H1 H2] [H3 H4]. split; auto. Qed.

Lemma grows_add_stmt s st : grows st (add_stmt s st).
Proof. split; simpl; [intros; apply elem_of_app|]; auto. Qed.

Lemma grows_visit pkg d st : grows st (visit pkg d st).
Proof.
  split; simpl; [auto|]. intros p Hp. rewrite fmap_app. apply elem_of_app. auto.
Qed.

Lemma add_dependencies_grows fuel pkg d st st' :
  0 <= d -> add_dependencies fetch max_depth fuel pkg d st = Some st' -> grows st st'.
Proof.
  intros Hd Hrun.
  apply (add_dependencies_invariant fetch max_depth (grows st))
    with (fuel := fuel) (pkg := pkg) (d := d) (st := st);
    [ intros s p k Hs _ _ _
    | intros s p k data Hs _ _ _
    | intros s p k data dep Hs _ _
    | exact Hd | apply grows_refl | exact Hrun ].
  - eapply grows_trans; [exact Hs|].
    eapply grows_trans; [apply grows_visit|apply grows_add_stmt].
  - eapply grows_trans; [exact Hs|].
    eapply grows_trans; [apply grows_visit|apply grows_add_stmt].
  - eapply grows_trans; [exact Hs|apply grows_add_stmt].
Qed.

(** *** Node statements *)

Definition is_node (s : stmt) : bool :=
  match s with
  | Node _ _ _ => true
  | Edge _ _ => false
  end.

(** The node statement of a looked-up package: labelled with its
    version, or gray when the lookup failed. *)
Definition node_of (pkg : string) : stmt :=
  match fetch pkg with
  | Some data => Node pkg (node_label pkg data) None
  | None => Node pkg pkg (Some "lightgray")
  end.

Definition nodes_ok (st : state) : Prop :=
  List.filter is_node (dot st) = map (fun pd => node_of pd.1) (fetched st) /\
  visited st = list_to_set (fetched st).*1.

Lemma nodes_ok_visit st pkg d :
  nodes_ok st -> nodes_ok (add_stmt (node_of pkg) (visit pkg d st)).
Proof.
  intros [Hn Hv]. split; simpl.
  - rewrite List.filter_app, map_app, Hn. f_equal. simpl.
    assert (H : is_node (node_of pkg) = true)
      by (unfold node_of; destruct (fetch pkg); reflexivity).
    rewrite H. reflexivity.
  - rewrite fmap_app, list_to_set_app_L, Hv. simpl.
    rewrite union_empty_r_L. apply (comm_L (∪)).
Qed.

Lemma add_dependencies_nodes_ok fuel pkg d st st' :
  0 <= d -> nodes_ok st ->
  add_dependencies fetch max_depth fuel pkg d st = Some st' -> nodes_ok st'.
Proof.
  apply (add_dependencies_invariant fetch max_depth nodes_ok).
  - intros s p k Hs _ _ Hf. pose proof (nodes_ok_visit s p k Hs) as H.
    unfold node_of in H at 1. rewrite Hf in H. exact H.
  - intros s p k data Hs _ _ Hf. pose proof (nodes_ok_visit s p k Hs) as H.
    unfold node_of in H at 1. rewrite Hf in H. exact H.
  - intros s p k data dep [Hn Hv] _ _. split; simpl; [|exact Hv].
    rewrite List.filter_app. simpl. rewrite app_nil_r. exact Hn.
Qed.

(** The node statements of the graph are the lookups that were made,
    one for each and in their order: labelled with the version when the
    lookup succeeded, gray when it failed.  The [visited] set holds the
    looked-up names and no other, so a dependency that was met only at
    the depth bound has an edge to it and no node statement. *)
Theorem nodes_are_lookups name st :
  create_dependency_graph fetch max_depth name = Some st ->
  List.filter is_node (dot st) = map (fun pd => node_of pd.1) (fetched st) /\
  visited st = list_to_set (fetched st).*1.
Proof.
  unfold create_dependency_graph, build. intros Hrun.
  eapply add_dependencies_nodes_ok; [| |exact Hrun]; [lia|].
  split; reflexivity.
Qed.

(** *** Edges *)

(** [requires p q]: the registry record of [p] names [q] in its
    [requires_dist]. *)
Definition requires (p q : string) : Prop :=
  exists data, fetch p = Some data /\ q <> "" /\
               q ∈ dep_name_of <$> default [] (requires_dist data).

Definition edges_sound (st : state) : Prop :=
  forall p q, Edge p q ∈ dot st -> p ∈ (fetched st).*1 /\ requires p q.

Lemma edges_sound_node st pkg d label colour :
  edges_sound st -> edges_sound (add_stmt (Node pkg label colour) (visit pkg d st)).
Proof.
  intros Hst p q. simpl.
  intros [Hin|[[=]|[]%elem_of_nil]%elem_of_cons]%elem_of_app.
  destruct (Hst p q Hin) as [Hp Hq]. split; [|exact Hq].
  rewrite fmap_app. apply elem_of_app. auto.
Qed.

Lemma edges_sound_edge st pkg q :
  edges_sound st -> pkg ∈ (fetched st).*1 -> requires pkg q ->
  edges_sound (add_stmt (Edge pkg q) st).
Proof.
  intros Hst Hpkg Hq p r. simpl.
  intros [Hin|[[= -> ->]|[]%elem_of_nil]%elem_of_cons]%elem_of_app; [apply Hst, Hin|].
  split; assumption.
Qed.

Lemma skipped_dep dep :
  String.eqb dep "" || String.eqb (dep_name_of dep) "" = true -> dep_name_of dep = "".
Proof.
  intros [H|H]%orb_true_iff.
  - apply String.eqb_eq in H. subst dep. reflexivity.
  - apply String.eqb_eq in H. exact H.
Qed.

Lemma kept_dep dep :
  String.eqb dep "" || String.eqb (dep_name_of dep) "" = false -> dep_name_of dep <> "".
Proof. intros [_ H]%orb_false_iff. apply String.eqb_neq, H. Qed.

Lemma each_dep_sound recurse pkg d data deps :
  fetch pkg = Some data ->
  (forall dep, dep ∈ deps -> dep ∈ default [] (requires_dist data)) ->
  (forall p st st', edges_sound st -> recurse p (d + 1) st = Some st' ->
                    edges_sound st' /\ grows st st') ->
  forall st st', edges_sound st -> pkg ∈ (fetched st).*1 ->
                 each_dep recurse pkg d deps st = Some st' -> edges_sound st'.
Proof.
  intros Hdata Hdeps Hrec. induction deps as [|dep deps IH]; intros st st' Hst Hpkg; simpl.
  - intros [= <-]. exact Hst.
  - assert (Hdeps' : forall x, x ∈ deps -> x ∈ default [] (requires_dist data))
      by (intros x Hx; apply Hdeps, elem_of_cons; auto).
    destruct (String.eqb dep "" || String.eqb (dep_name_of dep) "") eqn:Eskip;
      [apply IH; assumption|].
    assert (Hst1 : edges_sound (add_stmt (Edge pkg (dep_name_of dep)) st)).
    { apply edges_sound_edge; [exact Hst|exact Hpkg|].
      exists data. split; [exact Hdata|]. split; [apply kept_dep, Eskip|].
      apply list_elem_of_fmap. exists dep. split; [reflexivity|].
      apply Hdeps, elem_of_cons. auto. }
    destruct (bool_decide _); [apply IH; assumption|].
    destruct (recurse _ _ _) as [st2|] eqn:E; [|discriminate].
    destruct (Hrec _ _ _ Hst1 E) as [Hst2 [_ Hg]].
    apply IH; [assumption|exact Hst2|]. apply Hg. exact Hpkg.
Qed.

Lemma add_dependencies_sound fuel : forall pkg d st st',
  0 <= d -> edges_sound st ->
  add_dependencies fetch max_depth fuel pkg d st = Some st' -> edges_sound st'.
Proof.
  induction fuel as [|fuel IH]; intros pkg d st st' Hd Hst; [discriminate|].
  rewrite add_dependencies_S.
  destruct (_ || _); [intros [= <-]; exact Hst|].
  destruct (fetch pkg) as [data|] eqn:Hf.
  - apply (each_dep_sound _ pkg d data); [exact Hf|auto| |apply edges_sound_node, Hst|].
    + intros p s s' Hs Hrun. split; [eapply IH; [|exact Hs|exact Hrun]; lia|].
      eapply add_dependencies_grows; [|exact Hrun]. lia.
    + simpl. rewrite fmap_app. apply elem_of_app. right. apply elem_of_cons. auto.
  - intros [= <-]. apply edges_sound_node, Hst.
Qed.

Definition has_edges (st : state) (p : string) : Prop :=
  forall q, requires p q -> Edge p q ∈ dot st.

(** All the looked-up packages have their edges, but for those of [Q],
    whose loops are still running. *)
Definition complete_but (Q : string -> Prop) (st : state) : Prop :=
  forall p, p ∈ (fetched st).*1 -> ~ Q p -> has_edges st p.

Lemma complete_but_add_stmt Q s st : complete_but Q st -> complete_but Q (add_stmt s st).
Proof. intros H p Hp HQ q Hq. simpl. apply elem_of_app. left. exact (H p Hp HQ q Hq). Qed.

Lemma each_dep_complete Q recurse pkg d deps :
  (forall p st st', complete_but Q st -> recurse p (d + 1) st = Some st' ->
                    complete_but Q st' /\ grows st st') ->
  forall st st', complete_but Q st -> each_dep recurse pkg d deps st = Some st' ->
    complete_but Q st' /\ grows st st' /\
    forall dep, dep ∈ deps -> dep_name_of dep <> "" ->
                Edge pkg (dep_name_of dep) ∈ dot st'.
Proof.
  intros Hrec. induction deps as [|dep deps IH]; intros st st' Hst; simpl.
  - intros [= <-]. split; [exact Hst|]. split; [apply grows_refl|].
    intros dep []%elem_of_nil.
  - destruct (String.eqb dep "" || String.eqb (dep_name_of dep) "") eqn:Eskip.
    + intros Hrun. destruct (IH _ _ Hst Hrun) as (Hc & Hg & He).
      split; [exact Hc|]. split; [exact Hg|].
      intros x [->|Hx]%elem_of_cons Hname; [|apply He; assumption].
      exfalso. apply Hname, skipped_dep, Eskip.
    + set (st1 := add_stmt (Edge pkg (dep_name_of dep)) st).
      assert (Hst1 : complete_but Q st1) by apply complete_but_add_stmt, Hst.
      assert (Hedge : Edge pkg (dep_name_of dep) ∈ dot st1).
      { simpl. apply elem_of_app. right. apply elem_of_cons. auto. }
      assert (Hg1 : grows st st1) by apply grows_add_stmt.
      assert (Hloop : forall s, complete_but Q s -> grows st1 s ->
                each_dep recurse pkg d deps s = Some st' ->
                complete_but Q st' /\ grows st st' /\
                forall x, x ∈ dep :: deps -> dep_name_of x <> "" ->
                          Edge pkg (dep_name_of x) ∈ dot st').
      { intros s Hs Hgs Hrun. destruct (IH _ _ Hs Hrun) as (Hc & Hg & He).
        split; [exact Hc|].
        split; [eapply grows_trans; [exact Hg1|]; eapply grows_trans; eassumption|].
        intros x [->|Hx]%elem_of_cons Hname; [|apply He; assumption].
        apply Hg, Hgs, Hedge. }
      destruct (bool_decide _); [apply Hloop; [exact Hst1|apply grows_refl]|].
      destruct (recurse _ _ _) as [st2|] eqn:E; [|discriminate].
      destruct (Hrec _ _ _ Hst1 E) as [Hst2 Hg2]. apply Hloop; assumption.
Qed.

Lemma add_dependencies_complete fuel : forall Q pkg d st st',
  0 <= d -> complete_but Q st ->
  add_dependencies fetch max_depth fuel pkg d st = Some st' -> complete_but Q st'.
Proof.
  induction fuel as [|fuel IH]; intros Q pkg d st st' Hd Hst; [discriminate|].
  rewrite add_dependencies_S.
  destruct (_ || _); [intros [= <-]; exact Hst|].
  destruct (fetch pkg) as [data|] eqn:Hf.
  - intros Hrun.
    set (st1 := add_stmt (Node pkg (node_label pkg data) None) (visit pkg d st)) in *.
    assert (Hst1 : complete_but (fun p => Q p \/ p = pkg) st1).
    { intros p Hp HQ q Hq. simpl in Hp. rewrite fmap_app in Hp.
      apply elem_of_app in Hp as [Hp|[->|[]%elem_of_nil]%elem_of_cons].
      - simpl. apply elem_of_app. left. apply (Hst p Hp); [tauto|exact Hq].
      - exfalso. apply HQ. auto. }
    destruct (each_dep_complete (fun p => Q p \/ p = pkg)
                (add_dependencies fetch max_depth fuel) pkg d
                (default [] (requires_dist data))) with (st := st1) (st' := st')
      as (Hc & _ & He); [|exact Hst1|exact Hrun|].
    { intros p s s' Hs Hr. split; [eapply IH; [|exact Hs|exact Hr]; lia|].
      eapply add_dependencies_grows; [|exact Hr]. lia. }
    intros p Hp HQ. destruct (String.eqb_spec p pkg) as [->|Hne].
    + intros q (data' & Hf' & Hq & Hin). rewrite Hf in Hf'. injection Hf' as <-.
      apply list_elem_of_fmap in Hin as (dep & -> & Hdep). apply He; assumption.
    + apply Hc; [exact Hp|tauto].
  - intros [= <-] p Hp HQ q Hq. simpl in *. rewrite fmap_app in Hp.
    apply elem_of_app in Hp as [Hp|[->|[]%elem_of_nil]%elem_of_cons].
    + apply elem_of_app. left. exact (Hst p Hp HQ q Hq).
    + destruct Hq as (data & Hq & _). simpl in Hq. congruence.
Qed.

(** The edges of the graph are the requirements of the packages that
    were looked up, no more and no fewer: [p -> q] is an edge exactly
    when [p] was looked up and its record names [q] in [requires_dist]
    (the name being what is left of an entry before the first space or
    semicolon, stripped, when that is not empty). *)
Theorem edges_are_requirements name st :
  create_dependency_graph fetch max_depth name = Some st ->
  forall p q,
    Edge p q ∈ dot st <->
    p ∈ (fetched st).*1 /\
    exists data, fetch p = Some data /\ q <> "" /\
                 q ∈ dep_name_of <$> default [] (requires_dist data).
Proof.
  unfold create_dependency_graph, build. intros Hrun p q. split.
  - apply (add_dependencies_sound (S (Z.to_nat max_depth)) name 0 initial st);
      [lia| |exact Hrun].
    intros x y []%elem_of_nil.
  - intros [Hp Hq].
    apply (add_dependencies_complete (S (Z.to_nat max_depth)) (fun _ => False)
             name 0 initial st); [lia| |exact Hrun|exact Hp|tauto|exact Hq].
    intros x []%elem_of_nil.
Qed.

(** *** The root *)

Definition extends (st st' : state) : Prop :=
  exists g f, dot st' = (dot st ++ g)%list /\ fetched st' = (fetched st ++ f)%list.

Lemma extends_refl st : extends st st.
Proof. exists [], []. rewrite !app_nil_r. auto. Qed.

Lemma extends_add_stmt st s x : extends st s -> extends st (add_stmt x s).
Proof.
  intros (g & f & Hg & Hf). exists (g ++ [x])%list, f. simpl.
  rewrite Hg, Hf, app_assoc. auto.
Qed.

Lemma extends_visit st s pkg d : extends st s -> extends st (visit pkg d s).
Proof.
  intros (g & f & Hg & Hf). exists g, (f ++ [(pkg, d)])%list. simpl.
  rewrite Hg, Hf, app_assoc. auto.
Qed.

Lemma add_dependencies_extends fuel pkg d st st' :
  0 <= d -> add_dependencies fetch max_depth fuel pkg d st = Some st' -> extends st st'.
Proof.
  intros Hd Hrun.
  apply (add_dependencies_invariant fetch max_depth (extends st))
    with (fuel := fuel) (pkg := pkg) (d := d) (st := st);
    [ intros s p k Hs _ _ _; apply extends_add_stmt, extends_visit, Hs
    | intros s p k data Hs _ _ _; apply extends_add_stmt, extends_visit, Hs
    | intros s p k data dep Hs _ _; apply extends_add_stmt, Hs
    | exact Hd | apply extends_refl | exact Hrun ].
Qed.


End Extras.

Lemma nodes_are_lookups_witness :
  List.filter is_node (dot cycle_graph) =
    map (fun pd => node_of cyclic pd.1) (fetched cycle_graph) /\
  visited cycle_graph = list_to_set (fetched cycle_graph).*1.
Proof. exact (nodes_are_lookups cyclic 5 "A" cycle_graph eq_refl). Defined.

Lemma edges_are_requirements_witness :
  Edge "A" "C" ∈ dot cycle_graph <->
  "A" ∈ (fetched cycle_graph).*1 /\
  exists data, cyclic "A" = Some data /\ "C" <> "" /\
               "C" ∈ dep_name_of <$> default [] (requires_dist data).
Proof. exact (edges_are_requirements cyclic 5 "A" cycle_graph eq_refl "A" "C"). Defined.

End VisualizerExtras.
